(** * suumo-monitor: scraper, de-duplication store, notifier and run

    A shallow embedding of [suumo_monitor/scraper.py],
    [suumo_monitor/storage.py], [suumo_monitor/notifier.py],
    [Config.validate] of [suumo_monitor/config.py] and [build_notifier] and
    [run] of [suumo_monitor/monitor.py].

    - Python [str] values are [string]s (UTF-8 bytes); the scraper and the
      store only compare, concatenate, test emptiness and search
      substrings, which agree on bytes and on code points.  Where the
      notifier takes [len] or a slice, code points are counted.
    - Python [set]s of strings are [gset string].
    - The SQLite file is a [Database] record holding both tables; every
      storage method is a computation in the state monad [DB].
    - Network and clock effects of the scraper are recorded in a trace of
      [event]s.
    - Code that can raise runs in [Exc].  A notification is an attempt
      recorded in a list of [notice]s; a [Carrier] decides its fate.
    - The scraper is given twice: first with every library call
      returning, then, in the module [Raising], with the [ValueError] of
      [urlparse], [urljoin] and [time.sleep]; when the second returns, the
      first gives the same result and the same trace.
    - Logging is left out; [Config.from_env] is an input of [run], whose
      set-up steps and SQL statements are taken to succeed. *)

From stdpp Require Import base strings list gmap pretty.
From Stdlib Require Import ZArith QArith Ascii.

Set Warnings "-register-all".

Local Open Scope Z_scope.
Local Open Scope string_scope.
Local Open Scope list_scope.

(** ** Python helpers *)

(** Truth value of a [str]: the empty string is falsy. *)
Definition truthy (s : string) : bool := bool_decide (s ≠ "").

(** Truth value of an [Optional[str]]: [None] and the empty string are falsy. *)
Definition truthy_opt (o : option string) : bool :=
  match o with
  | Some s => truthy s
  | None => false
  end.

(** ** A state monad for effectful code

    Storage methods thread the database, scraper methods thread the trace
    of network and clock events. *)

Definition State (S A : Type) : Type := S → A * S.

Definition ret {S A} (a : A) : State S A := λ s, (a, s).

Definition bind {S A B} (m : State S A) (k : A → State S B) : State S B :=
  λ s, let '(a, s') := m s in k a s'.

Notation "'let*' x ':=' m 'in' k" := (bind m (λ x, k))
  (at level 10, x name, m at level 200, k at level 200, only parsing).
Notation "m '>>' k" := (bind m (λ _, k))
  (at level 100, k at level 200, right associativity, only parsing).

(** ** scraper.py: the [Listing] dataclass *)

Record Listing := mkListing {
  listing_id : string;
  url : string;
  building_name : string;
  address : string;
  station_access : string;
  rent : string;
  layout : string;
  area : string;
  age_floors : string;
  unit_floor : string
}.

#[global] Instance Listing_eq_dec : EqDecision Listing.
Proof. solve_decision. Defined.

(** ** The parsed document (BeautifulSoup)

    A parsed page is a tree of elements and text nodes.  A [Tag] is a handle
    on one element together with the heads of its ancestors, nearest first,
    which is what a CSS selector with descendant combinators looks at. *)

Record Head := mkHead {
  h_name : string;                     (* tag name *)
  h_classes : list string;             (* the multi-valued class attribute *)
  h_attrs : list (string * string)     (* the other attributes *)
}.

Inductive node :=
| Text (s : string)
| Element (h : Head) (children : list node).

Record Tag := mkTag {
  tag_parents : list Head;
  tag_head : Head;
  tag_children : list node
}.

(** [tag.get(name)] *)
Definition get (t : Tag) (name : string) : option string :=
  match list_find (λ kv, kv.1 = name) (h_attrs (tag_head t)) with
  | Some (_, kv) => Some kv.2
  | None => None
  end.

(** The element [n], if it is one, followed by every element below it, in
    document order. *)
Fixpoint tags_of (parents : list Head) (n : node) : list Tag :=
  match n with
  | Text _ => []
  | Element h children =>
      mkTag parents h children ::
      (fix below (cs : list node) : list Tag :=
         match cs with
         | [] => []
         | c :: cs' => tags_of (h :: parents) c ++ below cs'
         end) children
  end.

(** [tag.descendants], restricted to elements. *)
Definition descendants (t : Tag) : list Tag :=
  flat_map (tags_of (tag_head t :: tag_parents t)) (tag_children t).

(** Every text node below [n], in document order. *)
Fixpoint strings_of (n : node) : list string :=
  match n with
  | Text s => [s]
  | Element _ children =>
      (fix below (cs : list node) : list string :=
         match cs with
         | [] => []
         | c :: cs' => strings_of c ++ below cs'
         end) children
  end.

(** *** CSS selectors

    A compound selector constrains the tag name, some classes and the
    presence of some attributes; a selector is a chain of compound selectors
    joined by the descendant combinator, outermost first. *)

Record Compound := mkCompound {
  sel_name : string;
  sel_classes : list string;
  sel_attrs : list string
}.

Definition Selector := list Compound.

Definition has_attr (h : Head) (name : string) : bool :=
  bool_decide (name ∈ (h_attrs h).*1).

Definition matches_compound (c : Compound) (h : Head) : bool :=
  bool_decide (h_name h = sel_name c)
  && forallb (λ cls, bool_decide (cls ∈ h_classes h)) (sel_classes c)
  && forallb (has_attr h) (sel_attrs c).

(** [outer] lists the remaining compound selectors innermost first; each
    must be matched by a strictly farther ancestor than the previous one. *)
Fixpoint matches_ancestors (outer : list Compound) (parents : list Head) : bool :=
  match outer with
  | [] => true
  | c :: outer' =>
      (fix search (ps : list Head) : bool :=
         match ps with
         | [] => false
         | p :: ps' =>
             (matches_compound c p && matches_ancestors outer' ps') || search ps'
         end) parents
  end.

Definition matches (sel : Selector) (t : Tag) : bool :=
  match reverse sel with
  | [] => false
  | c :: outer => matches_compound c (tag_head t) && matches_ancestors outer (tag_parents t)
  end.

(** [tag.select(selector)]: the matching descendants, in document order. *)
Definition select (sel : Selector) (t : Tag) : list Tag :=
  filter (λ d, matches sel d = true) (descendants t).

(** [tag.select_one(selector)] *)
Definition select_one (sel : Selector) (t : Tag) : option Tag :=
  head (select sel t).

(** ** scraper.py: constants *)

Definition BASE_URL : string := "https://suumo.jp".

(** The keys of the [SELECTORS] dictionary. *)
Inductive selector_key :=
| listing_item | k_building_name | k_address | k_station_access | k_age_floors
| unit_rows | unit_link | unit_rent | unit_layout | unit_area | next_page.

(** The [SELECTORS] dictionary, each CSS string in parsed form. *)
Definition SELECTORS (k : selector_key) : Selector :=
  match k with
  | listing_item =>      (* div.cassetteitem *)
      [mkCompound "div" ["cassetteitem"] []]
  | k_building_name =>   (* div.cassetteitem_content-title *)
      [mkCompound "div" ["cassetteitem_content-title"] []]
  | k_address =>         (* li.cassetteitem_detail-col1 *)
      [mkCompound "li" ["cassetteitem_detail-col1"] []]
  | k_station_access =>  (* li.cassetteitem_detail-col2 *)
      [mkCompound "li" ["cassetteitem_detail-col2"] []]
  | k_age_floors =>      (* li.cassetteitem_detail-col3 *)
      [mkCompound "li" ["cassetteitem_detail-col3"] []]
  | unit_rows =>         (* table.cassetteitem_other tbody tr *)
      [mkCompound "table" ["cassetteitem_other"] [];
       mkCompound "tbody" [] [];
       mkCompound "tr" [] []]
  | unit_link =>         (* td.ui-text--bold a *)
      [mkCompound "td" ["ui-text--bold"] []; mkCompound "a" [] []]
  | unit_rent =>         (* span.cassetteitem_other-emphasis *)
      [mkCompound "span" ["cassetteitem_other-emphasis"] []]
  | unit_layout =>       (* span.cassetteitem_madori *)
      [mkCompound "span" ["cassetteitem_madori"] []]
  | unit_area =>         (* span.cassetteitem_menseki *)
      [mkCompound "span" ["cassetteitem_menseki"] []]
  | next_page =>         (* div.pagination.pagination-parts a[href] *)
      [mkCompound "div" ["pagination"; "pagination-parts"] [];
       mkCompound "a" [] ["href"]]
  end.

(** ** The library functions the scraper calls

    Text functions of the Python standard library and the HTML parser, whose
    results depend on Unicode tables and on RFC 3986; the scraper is
    embedded over any implementation of them.  Each field is the value of
    the call when it returns; [urlparse] and [urljoin] can also raise, which
    [PyRaises] and the module [Raising] below add. *)
Class PyLib := {
  (** [str.strip()] *)
  strip : string → string;
  (** [re.search(r"(jnc_\w+)", s)], then [.group(1)] *)
  re_search_jnc : string → option string;
  (** [re.search(r"\d+階", s)], then [.group(0)] *)
  re_search_floor : string → option string;
  (** [parse_qs(urlparse(href).query)]: each key present maps to the
      non-empty list of its values, given as first value and the others *)
  parse_qs_query : string → gmap string (string * list string);
  (** [urljoin(base, url)] *)
  urljoin : string → string → string;
  (** [BeautifulSoup(html, "lxml")]: the document as a [Tag] without parents *)
  BeautifulSoup : string → Tag
}.

(** ** The effects of the scraper *)

(** Outcome of [session.get] followed by [raise_for_status]. *)
Inductive response :=
| Ok (text : string)                       (* success; [resp.text] *)
| HTTPError (status_code : option Z)       (* [e.response], if any, has this status *)
| RequestException.                        (* any other [requests] failure *)

Inductive event :=
| Get (url : string)                       (* one HTTP GET *)
| Sleep (seconds : Q).                     (* one [time.sleep] *)

(** The network: the outcome of a GET, given everything that happened
    before it. *)
Definition Network := list event → string → response.

Definition IO (A : Type) : Type := State (list event) A.

Definition session_get (net : Network) (url : string) : IO response :=
  λ trace, (net trace url, trace ++ [Get url]).

(** [time.sleep(seconds)] when it returns; [Raising.sleep] adds the
    [ValueError] of a negative length. *)
Definition sleep (seconds : Q) : IO unit :=
  λ trace, (tt, trace ++ [Sleep seconds]).

(** The constructor arguments of [SuumoScraper]. *)
Record SuumoScraper := mkScraper {
  request_delay : Q;
  timeout : Z;
  max_pages : Z
}.

(** [needle in haystack] *)
Definition contains (needle haystack : string) : bool :=
  match String.index 0 needle haystack with
  | Some _ => true
  | None => false
  end.

Section scraper.
Context `{lib : PyLib}.

(** [tag.get_text(separator, strip=True)] *)
Definition get_text (separator : string) (t : Tag) : string :=
  String.concat separator
    (filter (λ s, truthy s = true)
       (strip <$> flat_map strings_of (tag_children t))).

(** [SuumoScraper._text] *)
Definition _text (element : Tag) (selector : Selector) : string :=
  match select_one selector element with
  | Some el => get_text "" el
  | None => ""
  end.

(** [SuumoScraper._extract_listing_id] *)
Definition _extract_listing_id (href : string) : option string :=
  match re_search_jnc href with
  | Some group1 => Some group1
  | None =>
      let qs := parse_qs_query href in
      match fst <$> (qs !! "bc") with
      | Some bc => if truthy bc then Some ("bc_" +:+ bc) else None
      | None => None
      end
  end.

(** The body of the [for row in unit_rows] loop; [None] stands for
    [continue]. *)
Definition parse_row (building_name address station_access age_floors : string)
    (row : Tag) : option Listing :=
  match select_one (SELECTORS unit_link) row with
  | None => None
  | Some link_tag =>
      if negb (truthy_opt (get link_tag "href")) then None
      else
        let href := default "" (get link_tag "href") in
        let listing_id := _extract_listing_id href in
        if negb (truthy_opt listing_id) then None
        else
          let row_text := get_text " " row in
          let unit_floor := default "" (re_search_floor row_text) in
          Some (mkListing (default "" listing_id)
                          (urljoin BASE_URL href)
                          building_name
                          address
                          station_access
                          (_text row (SELECTORS unit_rent))
                          (_text row (SELECTORS unit_layout))
                          (_text row (SELECTORS unit_area))
                          age_floors
                          unit_floor)
  end.

(** The body of the [for card in cards] loop. *)
Definition parse_card (card : Tag) : list Listing :=
  let building_name := _text card (SELECTORS k_building_name) in
  let address := _text card (SELECTORS k_address) in
  let station_access := _text card (SELECTORS k_station_access) in
  let age_floors := _text card (SELECTORS k_age_floors) in
  let rows := select (SELECTORS unit_rows) card in
  omap (parse_row building_name address station_access age_floors) rows.

(** [SuumoScraper._parse_listings] *)
Definition _parse_listings (soup : Tag) : list Listing :=
  let cards := select (SELECTORS listing_item) soup in
  flat_map parse_card cards.

(** The test of [_get_next_page_url] on one pagination link. *)
Definition is_next_link (a : Tag) : bool :=
  let text := get_text "" a in
  (contains "次へ" text || bool_decide (text = ">"))
  && truthy_opt (get a "href").

(** [SuumoScraper._get_next_page_url] *)
Definition _get_next_page_url (soup : Tag) : option string :=
  match list_find (λ a, is_next_link a = true) (select (SELECTORS next_page) soup) with
  | Some (_, a) => Some (urljoin BASE_URL (default "" (get a "href")))
  | None => None
  end.

Context (self : SuumoScraper) (net : Network).

(** [SuumoScraper._fetch_page] *)
Definition _fetch_page (url : string) : IO (option string) :=
  let* resp := session_get net url in
  match resp with
  | Ok text => ret (Some text)
  | HTTPError status_code =>
      if decide (status_code = Some 429) then
        sleep (inject_Z 60) >>
        let* retry := session_get net url in
        match retry with
        | Ok text => ret (Some text)
        | _ => ret None
        end
      else ret None
  | RequestException => ret None
  end.

(** The [while] loop of [fetch_all_listings] on its three locals.  The
    result is [None] only when [fuel] iterations did not reach the end of
    the loop. *)
Fixpoint fetch_loop (fuel : nat) (all_listings : list Listing)
    (url : option string) (page_num : Z) : IO (option (list Listing)) :=
  if truthy_opt url && (page_num <=? max_pages self)%Z then
    match fuel with
    | O => ret None
    | S fuel' =>
        let* html := _fetch_page (default "" url) in
        if negb (truthy_opt html) then ret (Some all_listings)
        else
          let soup := BeautifulSoup (default "" html) in
          let page_listings := _parse_listings soup in
          let all_listings := all_listings ++ page_listings in
          let url := _get_next_page_url soup in
          let page_num := (page_num + 1)%Z in
          (if truthy_opt url then sleep (request_delay self) else ret tt) >>
          fetch_loop fuel' all_listings url page_num
    end
  else ret (Some all_listings).

(** [SuumoScraper.fetch_all_listings]; the loop runs at most [max_pages]
    times. *)
Definition fetch_all_listings (search_url : string) : IO (option (list Listing)) :=
  fetch_loop (Z.to_nat (max_pages self)) [] (Some search_url) 1.
End scraper.

(** ** storage.py: schema *)

(** One row of the [listings] table ([_SCHEMA]); [listing_id] is the
    primary key, [notified_at] is nullable. *)
Record ListingRow := mkRow {
  col_listing_id : string;
  col_url : string;
  col_building_name : string;
  col_address : string;
  col_station_access : string;
  col_rent : string;
  col_layout : string;
  col_area : string;
  col_age_floors : string;
  col_unit_floor : string;
  col_physical_key : string;
  col_first_seen_at : string;
  col_notified_at : option string
}.

#[global] Instance ListingRow_eq_dec : EqDecision ListingRow.
Proof. solve_decision. Defined.

(** One row of the [run_log] table. *)
Record RunLogRow := mkRunLog {
  col_id : Z;
  col_run_at : string;
  col_listings_found : Z;
  col_new_listings : Z;
  col_error : option string
}.

(** The database file: both tables in rowid order, and the AUTOINCREMENT
    counter of [run_log]. *)
Record Database := mkDatabase {
  listings : list ListingRow;
  run_log : list RunLogRow;
  run_log_seq : Z
}.

(** The PRIMARY KEY constraint on [listings.listing_id]. *)
Definition primary_key_ok (db : Database) : Prop :=
  NoDup (col_listing_id <$> listings db).

(** Database computations. *)
Definition DB (A : Type) : Type := State Database A.

(** [with self._conn() as conn: body]: open a connection, run the body and
    commit.  None of the statements below can fail, so the rollback branch
    is never taken. *)
Definition _conn {A} (body : DB A) : DB A := body.

(** *** The SQL statements issued by the store *)

(** [SELECT listing_id FROM listings WHERE listing_id IN (ids)] *)
Definition select_listing_id_in (ids : list string) : DB (list string) :=
  λ db, (col_listing_id <$> filter (λ r, col_listing_id r ∈ ids) (listings db), db).

(** [SELECT physical_key FROM listings WHERE physical_key IN (pkeys)] *)
Definition select_physical_key_in (pkeys : list string) : DB (list string) :=
  λ db, (col_physical_key <$> filter (λ r, col_physical_key r ∈ pkeys) (listings db), db).

(** [DELETE FROM listings WHERE listing_id NOT IN (ids)]; the result is the
    cursor's [rowcount]. *)
Definition delete_listing_id_not_in (ids : list string) : DB Z :=
  λ db,
    (Z.of_nat (length (filter (λ r, col_listing_id r ∉ ids) (listings db))),
     {| listings := filter (λ r, ¬ (col_listing_id r ∉ ids)) (listings db);
        run_log := run_log db;
        run_log_seq := run_log_seq db |}).

(** [INSERT OR IGNORE INTO listings (...) VALUES (...)]: a row whose
    [listing_id] is already present is dropped. *)
Definition insert_or_ignore (row : ListingRow) : DB unit :=
  λ db,
    if decide (col_listing_id row ∈ col_listing_id <$> listings db)
    then (tt, db)
    else (tt, {| listings := listings db ++ [row];
                 run_log := run_log db;
                 run_log_seq := run_log_seq db |}).

(** [executemany]: one statement per parameter tuple, in order. *)
Fixpoint executemany (rows : list ListingRow) : DB unit :=
  match rows with
  | [] => ret tt
  | row :: rest => insert_or_ignore row >> executemany rest
  end.

(** [UPDATE listings SET notified_at=? WHERE listing_id IN (ids)] *)
Definition update_notified_at (now : string) (ids : list string) : DB unit :=
  λ db,
    (tt, {| listings :=
              (λ r, if decide (col_listing_id r ∈ ids)
                    then mkRow (col_listing_id r) (col_url r) (col_building_name r)
                           (col_address r) (col_station_access r) (col_rent r)
                           (col_layout r) (col_area r) (col_age_floors r)
                           (col_unit_floor r) (col_physical_key r)
                           (col_first_seen_at r) (Some now)
                    else r) <$> listings db;
            run_log := run_log db;
            run_log_seq := run_log_seq db |}).

(** [INSERT INTO run_log (run_at, listings_found, new_listings, error)] *)
Definition insert_run_log (now : string) (found new : Z) (err : option string) : DB unit :=
  λ db,
    (tt, {| listings := listings db;
            run_log := run_log db ++ [mkRunLog (run_log_seq db + 1) now found new err];
            run_log_seq := run_log_seq db + 1 |}).

(** ** storage.py: [_physical_key] *)

Definition _physical_key (l : Listing) : string :=
  address l +:+ "|" +:+ unit_floor l +:+ "|" +:+ layout l +:+ "|" +:+ area l.

(** ** storage.py: [ListingStorage.filter_new_listings] *)

(** The nested function [is_new]. *)
Definition is_new (known_ids known_pkeys : gset string) (l : Listing) : bool :=
  if bool_decide (listing_id l ∈ known_ids) then false
  else if truthy (unit_floor l) && bool_decide (_physical_key l ∈ known_pkeys) then false
  else true.

(** The final [for l in listings] loop, with its two mutable locals
    [seen_pkeys] and [result]. *)
Fixpoint filter_loop (known_ids known_pkeys : gset string) (ls : list Listing)
    (seen_pkeys : gset string) (result : list Listing) : list Listing :=
  match ls with
  | [] => result
  | l :: rest =>
      if negb (is_new known_ids known_pkeys l) then
        filter_loop known_ids known_pkeys rest seen_pkeys result
      else if truthy (unit_floor l) then
        let pk := _physical_key l in
        if bool_decide (pk ∈ seen_pkeys) then
          filter_loop known_ids known_pkeys rest seen_pkeys result
        else
          filter_loop known_ids known_pkeys rest ({[pk]} ∪ seen_pkeys) (result ++ [l])
      else
        filter_loop known_ids known_pkeys rest seen_pkeys (result ++ [l])
  end.

Definition filter_new_listings (ls : list Listing) : DB (list Listing) :=
  match ls with
  | [] => ret []
  | _ =>
      let ids := listing_id <$> ls in
      let pkeys := _physical_key <$> filter (λ l, truthy (unit_floor l) = true) ls in
      let* sets := _conn (
        let* id_rows := select_listing_id_in ids in
        let known_ids : gset string := list_to_set id_rows in
        match pkeys with
        | [] => ret (known_ids, (∅ : gset string))
        | _ =>
            let* pk_rows := select_physical_key_in pkeys in
            ret (known_ids,
                 (list_to_set (filter (λ k, truthy k = true) pk_rows) : gset string))
        end) in
      ret (filter_loop sets.1 sets.2 ls ∅ [])
  end.

(** ** storage.py: [delete_expired_listings], [save_listings],
       [mark_notified], [log_run] *)

Definition delete_expired_listings (current_listing_ids : list string) : DB Z :=
  match current_listing_ids with
  | [] => ret 0
  | _ => _conn (delete_listing_id_not_in current_listing_ids)
  end.

(** The parameter tuple built for one listing; [now] is the value of
    [datetime.now(timezone.utc).isoformat()] read once per call. *)
Definition row_of_listing (now : string) (l : Listing) : ListingRow :=
  mkRow (listing_id l) (url l) (building_name l) (address l) (station_access l)
        (rent l) (layout l) (area l) (age_floors l) (unit_floor l)
        (_physical_key l) now None.

Definition save_listings (now : string) (ls : list Listing) : DB unit :=
  match ls with
  | [] => ret tt
  | _ => _conn (executemany (row_of_listing now <$> ls))
  end.

Definition mark_notified (now : string) (listing_ids : list string) : DB unit :=
  match listing_ids with
  | [] => ret tt
  | _ => _conn (update_notified_at now listing_ids)
  end.

Definition log_run (now : string) (listings_found new_listings : Z)
    (error : option string) : DB unit :=
  _conn (insert_run_log now listings_found new_listings error).

(** ** The three exclusion rules of [filterNew]

    The specification gives three rules.  [filterNew_worded] applies them
    as it words them, rule 3 looking at everything that came earlier in
    the candidate batch.  [filterNew_survivors] applies them in precedence,
    rule 3 looking only at the earlier candidates that rules 1 and 2
    left. *)

(** Rule 1: the candidate's [listing_id] is not in the store. *)
Definition rule1 (db : Database) (l : Listing) : Prop :=
  listing_id l ∉ col_listing_id <$> listings db.

(** Rule 2: with a non-empty [unit_floor], no stored row carries the
    candidate's physical key under a different [listing_id]. *)
Definition rule2 (db : Database) (l : Listing) : Prop :=
  unit_floor l ≠ "" →
  Forall (λ r, col_physical_key r = _physical_key l →
               col_listing_id r = listing_id l) (listings db).

(** Rule 3: with a non-empty [unit_floor], no earlier candidate with a
    non-empty [unit_floor] carries the same physical key. *)
Definition rule3 (earlier : list Listing) (l : Listing) : Prop :=
  unit_floor l ≠ "" →
  Forall (λ e, unit_floor e ≠ "" → _physical_key e ≠ _physical_key l) earlier.

#[global] Instance rule1_dec db l : Decision (rule1 db l).
Proof. unfold rule1. apply _. Defined.

#[global] Instance rule2_dec db l : Decision (rule2 db l).
Proof. unfold rule2. apply _. Defined.

#[global] Instance rule3_dec earlier l : Decision (rule3 earlier l).
Proof. unfold rule3. apply _. Defined.

(** First occurrence wins: a candidate is kept when rule 3 holds against
    everything that came before it in the list. *)
Fixpoint keep_first_occurrence (earlier ls : list Listing) : list Listing :=
  match ls with
  | [] => []
  | l :: rest =>
      if decide (rule3 earlier l)
      then l :: keep_first_occurrence (earlier ++ [l]) rest
      else keep_first_occurrence (earlier ++ [l]) rest
  end.

(** The rules in precedence: rule 1, then rule 2 on what rule 1 left, then
    rule 3 on what rules 1 and 2 left. *)
Definition filterNew_survivors (db : Database) (candidates : list Listing)
    : list Listing :=
  keep_first_occurrence [] (filter (rule2 db) (filter (rule1 db) candidates)).

(** The rules as worded: a candidate is returned when its id is not stored
    (rule 1), its key is not stored under another id (rule 2) and its key
    was not seen earlier in the same candidate batch (rule 3), whatever
    became of the earlier candidate. *)
Fixpoint filter_batch (db : Database) (earlier ls : list Listing) : list Listing :=
  match ls with
  | [] => []
  | l :: rest =>
      if decide (rule1 db l ∧ rule2 db l ∧ rule3 earlier l)
      then l :: filter_batch db (earlier ++ [l]) rest
      else filter_batch db (earlier ++ [l]) rest
  end.

Definition filterNew_worded (db : Database) (candidates : list Listing) : list Listing :=
  filter_batch db [] candidates.

(** ** Sample data used by the worked examples *)

Definition sample_listing (id addr floor : string) : Listing :=
  mkListing id ("https://suumo.jp/chintai/" +:+ id +:+ "/") "Maison A" addr
            "JR Yamanote / Ebisu 5 min" "10.5" "1LDK" "40.2m2" "10y / 5F" floor.

Definition empty_db : Database := mkDatabase [] [] 0.



(** A store that already holds listing [jnc_1] (third floor) and listing
    [jnc_2] (floor unknown). *)
Definition sample_db : Database :=
  (save_listings "2025-01-01T00:00:00+00:00"
     [sample_listing "jnc_1" "Tokyo 1-1" "3F"; sample_listing "jnc_2" "Tokyo 2-2" ""]
     empty_db).2.

(** *** A sample implementation of the library functions

    Restricted to what the sample pages need: ASCII character classes for
    [\d], [\w] and white space, query strings without percent escapes, and
    hrefs that are absolute paths. *)

Definition is_digit (c : ascii) : bool :=
  let n := nat_of_ascii c in (48 <=? n)%nat && (n <=? 57)%nat.

Definition is_word (c : ascii) : bool :=
  let n := nat_of_ascii c in
  is_digit c || ((65 <=? n)%nat && (n <=? 90)%nat)
  || ((97 <=? n)%nat && (n <=? 122)%nat) || (n =? 95)%nat.

Definition is_space (c : ascii) : bool :=
  let n := nat_of_ascii c in ((9 <=? n)%nat && (n <=? 13)%nat) || (n =? 32)%nat.

Fixpoint take_while (p : ascii → bool) (s : string) : string :=
  match s with
  | String c s' => if p c then String c (take_while p s') else ""
  | EmptyString => ""
  end.

Fixpoint drop_while (p : ascii → bool) (s : string) : string :=
  match s with
  | String c s' => if p c then drop_while p s' else s
  | EmptyString => ""
  end.

Definition sample_strip (s : string) : string :=
  String.rev (drop_while is_space (String.rev (drop_while is_space s))).

(** Leftmost match of [jnc_\w+]. *)
Fixpoint sample_re_search_jnc (s : string) : option string :=
  match s with
  | EmptyString => None
  | String _ s' =>
      let word := take_while is_word (String.substring 4 (String.length s) s) in
      if String.prefix "jnc_" s && truthy word then Some ("jnc_" +:+ word)
      else sample_re_search_jnc s'
  end.

(** Leftmost match of [\d+階]. *)
Fixpoint sample_re_search_floor (s : string) : option string :=
  match s with
  | EmptyString => None
  | String _ s' =>
      let digits := take_while is_digit s in
      if truthy digits && String.prefix "階" (drop_while is_digit s)
      then Some (digits +:+ "階")
      else sample_re_search_floor s'
  end.

(** The text after the first occurrence of [sep], if any. *)
Definition after (sep s : string) : option string :=
  match String.index 0 sep s with
  | Some i => Some (String.substring (i + String.length sep) (String.length s) s)
  | None => None
  end.

(** The text before the first occurrence of [sep], or all of it. *)
Definition before (sep s : string) : string :=
  match String.index 0 sep s with
  | Some i => String.substring 0 i s
  | None => s
  end.

(** [s.split(sep)] for a one-character separator. *)
Fixpoint split_on (sep : ascii) (s : string) : list string :=
  match s with
  | EmptyString => [""]
  | String c s' =>
      if bool_decide (c = sep) then "" :: split_on sep s'
      else match split_on sep s' with
           | piece :: pieces => String c piece :: pieces
           | [] => [String c ""]
           end
  end.

(** Adds a value at the end of the list of a key, as [parse_qs] does. *)
Definition add_value (qs : gmap string (string * list string)) (kv : string * string)
    : gmap string (string * list string) :=
  match qs !! kv.1 with
  | Some (v, vs) => <[kv.1 := (v, vs ++ [kv.2])]> qs
  | None => <[kv.1 := (kv.2, [])]> qs
  end.

Definition sample_parse_qs_query (href : string) : gmap string (string * list string) :=
  match after "?" (before "#" href) with
  | None => ∅
  | Some query =>
      let fields := split_on "&" query in
      let pairs := (λ f, (before "=" f, default "" (after "=" f))) <$> fields in
      foldl add_value ∅ (filter (λ kv, truthy kv.2 = true) pairs)
  end.

Definition sample_urljoin (base url : string) : string :=
  if String.prefix "/" url then base +:+ url else url.

(** *** Sample pages *)

Definition el (name : string) (classes : list string) (attrs : list (string * string))
    (children : list node) : node :=
  Element (mkHead name classes attrs) children.

Definition document (body : list node) : Tag :=
  mkTag [] (mkHead "[document]" [] []) [el "html" [] [] [el "body" [] [] body]].

Definition unit_row (floor rent madori menseki href : string) : node :=
  el "tr" [] []
    [el "td" [] [] [Text floor];
     el "td" [] [] [el "span" ["cassetteitem_other-emphasis"] [] [Text rent]];
     el "td" [] [] [el "span" ["cassetteitem_madori"] [] [Text madori]];
     el "td" [] [] [el "span" ["cassetteitem_menseki"] [] [Text menseki]];
     el "td" ["ui-text--bold"] [] [el "a" [] [("href", href)] [Text "詳細を見る"]]].

Definition building_card (name addr access age : string) (rows : list node) : node :=
  el "div" ["cassetteitem"] []
    [el "div" ["cassetteitem_content-title"] [] [Text name];
     el "li" ["cassetteitem_detail-col1"] [] [Text addr];
     el "li" ["cassetteitem_detail-col2"] [] [Text access];
     el "li" ["cassetteitem_detail-col3"] [] [Text age];
     el "table" ["cassetteitem_other"] [] [el "tbody" [] [] rows]].

Definition pagination (label href : string) : node :=
  el "div" ["pagination"; "pagination-parts"] [] [el "a" [] [("href", href)] [Text label]].

(** Two building cards, the first with one unit row on the third floor, the
    second with two unit rows without a floor, and a next-page link. *)
Definition two_card_page : Tag :=
  document
    [building_card "Maison A" "Tokyo 1-1" "Ebisu 5 min" "10y / 5F"
       [unit_row "3階" "10万円" "1LDK" "40.2m2" "/chintai/jnc_1/?bc=100"];
     building_card "Maison B" "Tokyo 2-2" "Meguro 8 min" "3y / 9F"
       [unit_row "-" "12万円" "2DK" "45.0m2" "/chintai/jnc_2/";
        unit_row "-" "13万円" "2LDK" "50.5m2" "/chintai/jnc_3/"];
     pagination "次へ" "/jj/chintai/?page=2"].

(** A page without any building card whose pagination still offers a next
    page. *)
Definition pagination_only_html : string :=
  "<html><body><div class='pagination pagination-parts'>"
  +:+ "<a href='/jj/chintai/?page=3'>&gt;</a></div></body></html>".

Definition pagination_only_page : Tag :=
  document [pagination ">" "/jj/chintai/?page=3"].

(** A page with one building card, one unit row and a next-page link. *)
Definition one_card_html : string :=
  "<html><body><div class='cassetteitem'>"
  +:+ "<div class='cassetteitem_content-title'>Maison A</div>"
  +:+ "<li class='cassetteitem_detail-col1'>Tokyo 1-1</li>"
  +:+ "<li class='cassetteitem_detail-col2'>Ebisu 5 min</li>"
  +:+ "<li class='cassetteitem_detail-col3'>10y / 5F</li>"
  +:+ "<table class='cassetteitem_other'><tbody><tr><td>3階</td>"
  +:+ "<td><span class='cassetteitem_other-emphasis'>10万円</span></td>"
  +:+ "<td><span class='cassetteitem_madori'>1LDK</span></td>"
  +:+ "<td><span class='cassetteitem_menseki'>40.2m2</span></td>"
  +:+ "<td class='ui-text--bold'><a href='/chintai/jnc_1/'>詳細を見る</a></td>"
  +:+ "</tr></tbody></table></div>"
  +:+ "<div class='pagination pagination-parts'>"
  +:+ "<a href='/jj/chintai/?page=2'>次へ</a></div></body></html>".

Definition one_card_page : Tag :=
  document
    [building_card "Maison A" "Tokyo 1-1" "Ebisu 5 min" "10y / 5F"
       [unit_row "3階" "10万円" "1LDK" "40.2m2" "/chintai/jnc_1/"];
     pagination "次へ" "/jj/chintai/?page=2"].

(** The parser on the sample pages; any other text is taken as an empty
    document. *)
Definition sample_BeautifulSoup (html : string) : Tag :=
  if bool_decide (html = one_card_html) then one_card_page
  else if bool_decide (html = pagination_only_html) then pagination_only_page
  else document [].

Definition sample_lib : PyLib :=
  {| strip := sample_strip;
     re_search_jnc := sample_re_search_jnc;
     re_search_floor := sample_re_search_floor;
     parse_qs_query := sample_parse_qs_query;
     urljoin := sample_urljoin;
     BeautifulSoup := sample_BeautifulSoup |}.

Definition sample_scraper : SuumoScraper :=
  {| request_delay := 3; timeout := 30; max_pages := 2 |}.

(** A site where every GET succeeds with the one-card page. *)
Definition endless_site : Network := λ _ _, Ok one_card_html.

(** A site whose first page is served after one 429, and whose second page
    cannot be reached. *)
Definition flaky_site : Network :=
  λ trace url,
    match trace with
    | [] => HTTPError (Some 429)
    | [Get _; Sleep _] => Ok one_card_html
    | _ => RequestException
    end.

(** ** Python strings seen as code points

    [len] and slicing count code points; on UTF-8 text a code point starts
    at every byte that is not a continuation byte. *)

Definition is_continuation (c : ascii) : bool :=
  let n := nat_of_ascii c in (128 <=? n)%nat && (n <? 192)%nat.

Fixpoint code_points (s : string) : nat :=
  match s with
  | EmptyString => 0
  | String c s' => if is_continuation c then code_points s' else S (code_points s')
  end.

(** [len(s)] *)
Definition py_len (s : string) : Z := Z.of_nat (code_points s).

Fixpoint take_code_points (n : nat) (s : string) : string :=
  match s with
  | EmptyString => ""
  | String c s' =>
      if is_continuation c then String c (take_code_points n s')
      else match n with
           | O => ""
           | S n' => String c (take_code_points n' s')
           end
  end.

(** [s[:n]] for a non-negative [n] *)
Definition py_prefix (n : Z) (s : string) : string :=
  take_code_points (Z.to_nat n) s.

(** The newline and the double quote. *)
Definition nl : string := String (ascii_of_nat 10) "".
Definition dquote : string := String (ascii_of_nat 34) "".

(** ** Code that can raise

    [Raise msg] is an exception whose [str] is [msg]. *)

Inductive outcome (A : Type) :=
| Return (a : A)
| Raise (msg : string).
Arguments Return {A} a.
Arguments Raise {A} msg.

Definition Exc (S A : Type) : Type := S → outcome A * S.

Definition exc_ret {S A} (a : A) : Exc S A := λ s, (Return a, s).

Definition exc_raise {S A} (msg : string) : Exc S A := λ s, (Raise msg, s).

Definition exc_bind {S A B} (m : Exc S A) (k : A → Exc S B) : Exc S B :=
  λ s, match m s with
       | (Return a, s') => k a s'
       | (Raise msg, s') => (Raise msg, s')
       end.

Notation "'let!' x ':=' m 'in' k" := (exc_bind m (λ x, k))
  (at level 10, x name, m at level 200, k at level 200, only parsing).
Notation "m '>>!' k" := (exc_bind m (λ _, k))
  (at level 100, k at level 200, right associativity, only parsing).

(** A computation that cannot raise, run where exceptions are possible. *)
Definition lift {S A} (m : State S A) : Exc S A :=
  λ s, let '(a, s') := m s in (Return a, s').


(** Exceptions of code without effects. *)
Definition outcome_bind {A B} (o : outcome A) (k : A → outcome B) : outcome B :=
  match o with
  | Return a => k a
  | Raise msg => Raise msg
  end.

(** ** notifier.py: the channels *)

Definition LINE_MESSAGING_API_URL : string := "https://api.line.me/v2/bot/message/push".
Definition LINE_MAX_MSG_LEN : Z := 5000.

(** One delivery attempt: a push to the LINE API, a post to a Slack
    webhook, or a mail handed to an SMTP server. *)
Inductive notice :=
| LinePush (channel_access_token to text : string)
| SlackPost (webhook_url text : string)
| Mail (smtp_host : string) (smtp_port : Z) (username password from_addr : string)
       (to_addrs : list string) (subject plain html : string).

(** What an attempt does: it succeeds, it fails with the exception the
    sender catches ([RequestException], [SMTPException]), or it fails with
    another exception, which the sender lets through. *)
Inductive delivery :=
| Delivered
| Refused
| Crashed (msg : string).

(** The outside world of the notifier: the fate of an attempt, given the
    attempts made before it. *)
Definition Carrier := list notice → notice → delivery.

(** One attempt, recorded in the list of attempts: [True] when delivered,
    [False] when the failure is caught. *)
Definition attempt (carrier : Carrier) (n : notice) : Exc (list notice) bool :=
  λ sent,
    match carrier sent n with
    | Delivered => (Return true, sent ++ [n])
    | Refused => (Return false, sent ++ [n])
    | Crashed msg => (Raise msg, sent ++ [n])
    end.

Module LineNotifier.

Record t := mk {
  user_id : string;
  channel_access_token : string
}.

(** [LineNotifier.__init__] *)
Definition init (channel_access_token user_id : string) : outcome t :=
  if negb (truthy channel_access_token)
  then Raise "LINE_CHANNEL_ACCESS_TOKEN が設定されていません。"
  else if negb (truthy user_id)
  then Raise "LINE_USER_ID が設定されていません。"
  else Return (mk user_id channel_access_token).

(** The text that [send] puts in the payload. *)
Definition clip (message : string) : string :=
  if (LINE_MAX_MSG_LEN <? py_len message)%Z
  then py_prefix (LINE_MAX_MSG_LEN - 3) message +:+ "..."
  else message.

(** [LineNotifier.send] *)
Definition send (carrier : Carrier) (self : t) (message : string)
    : Exc (list notice) bool :=
  let message := clip message in
  attempt carrier (LinePush (channel_access_token self) (user_id self) message).

(** The [for l in listings] loop of [send_new_listings] on its two locals. *)
Fixpoint chunk_loop (carrier : Carrier) (self : t) (listings : list Listing)
    (current_chunk : string) (success : bool) : Exc (list notice) (string * bool) :=
  match listings with
  | [] => exc_ret (current_chunk, success)
  | l :: rest =>
      let entry := url l +:+ nl in
      if (LINE_MAX_MSG_LEN <? py_len current_chunk + py_len entry)%Z then
        let! sent := send carrier self current_chunk in
        chunk_loop carrier self rest entry (success && sent)
      else
        chunk_loop carrier self rest (current_chunk +:+ entry) success
  end.

Definition header (listings : list Listing) : string :=
  "【SUUMO新着】" +:+ pretty (length listings) +:+ "件" +:+ nl.

(** [LineNotifier.send_new_listings] *)
Definition send_new_listings `{lib : PyLib} (carrier : Carrier) (self : t)
    (listings : list Listing) : Exc (list notice) bool :=
  match listings with
  | [] => exc_ret true
  | _ =>
      let! state := chunk_loop carrier self listings (header listings) true in
      let '(current_chunk, success) := state in
      if truthy (strip current_chunk) then
        let! sent := send carrier self current_chunk in
        exc_ret (success && sent)
      else exc_ret success
  end.

End LineNotifier.

Module SlackNotifier.

Record t := mk {
  webhook_url : string
}.

(** [SlackNotifier.__init__] *)
Definition init (webhook_url : string) : outcome t :=
  if negb (truthy webhook_url)
  then Raise "SLACK_WEBHOOK_URL が設定されていません。"
  else Return (mk webhook_url).

(** [SlackNotifier.send] *)
Definition send (carrier : Carrier) (self : t) (text : string)
    : Exc (list notice) bool :=
  attempt carrier (SlackPost (webhook_url self) text).

(** [SlackNotifier.send_new_listings] *)
Definition send_new_listings (carrier : Carrier) (self : t) (listings : list Listing)
    : Exc (list notice) bool :=
  match listings with
  | [] => exc_ret true
  | _ =>
      let lines :=
        [":house: *SUUMO新着* " +:+ pretty (length listings) +:+ "件"]
        ++ (url <$> listings) in
      send carrier self (String.concat nl lines)
  end.

End SlackNotifier.

Module EmailNotifier.

Record t := mk {
  smtp_host : string;
  smtp_port : Z;
  username : string;
  password : string;
  from_addr : string;
  to_addrs : list string
}.

(** [EmailNotifier._build_html] *)
Definition _build_html (listings : list Listing) : string :=
  let links :=
    String.concat ""
      ((λ l, "<li><a href=" +:+ dquote +:+ url l +:+ dquote +:+ ">" +:+ url l
             +:+ "</a></li>") <$> listings) in
  nl +:+ "<html><body>" +:+ nl
  +:+ "<h2>SUUMO 新着物件通知 (" +:+ pretty (length listings) +:+ "件)</h2>" +:+ nl
  +:+ "<ul>" +:+ links +:+ "</ul>" +:+ nl
  +:+ "</body></html>".

(** [EmailNotifier._build_plain] *)
Definition _build_plain (listings : list Listing) : string :=
  let lines :=
    ["SUUMO 新着物件通知 (" +:+ pretty (length listings) +:+ "件)";
     "========================================"]
    ++ (url <$> listings) in
  String.concat nl lines.

(** [EmailNotifier.send_new_listings] *)
Definition send_new_listings (carrier : Carrier) (self : t) (listings : list Listing)
    : Exc (list notice) bool :=
  match listings with
  | [] => exc_ret true
  | _ =>
      let subject := "[SUUMO] " +:+ pretty (length listings) +:+ "件の新着物件があります" in
      attempt carrier
        (Mail (smtp_host self) (smtp_port self) (username self) (password self)
              (from_addr self) (to_addrs self) subject
              (_build_plain listings) (_build_html listings))
  end.

End EmailNotifier.

Module Notifier.

Record t := mk {
  line : option LineNotifier.t;
  slack : option SlackNotifier.t;
  email : option EmailNotifier.t
}.

(** [Notifier.__init__] *)
Definition init (line : option LineNotifier.t) (slack : option SlackNotifier.t)
    (email : option EmailNotifier.t) : outcome t :=
  if negb (bool_decide (is_Some line) || bool_decide (is_Some slack)
           || bool_decide (is_Some email))
  then Raise ("通知手段が設定されていません。"
              +:+ "LINE・Slack・メールのいずれかを設定してください。")
  else Return (mk line slack email).

(** [if channel: channel.send...(x)], the result being dropped. *)
Definition when_set {C} (channel : option C) (send : C → Exc (list notice) bool)
    : Exc (list notice) unit :=
  match channel with
  | Some c => send c >>! exc_ret tt
  | None => exc_ret tt
  end.

(** [Notifier.notify] *)
Definition notify `{lib : PyLib} (carrier : Carrier) (self : t) (listings : list Listing)
    : Exc (list notice) unit :=
  match listings with
  | [] => exc_ret tt
  | _ =>
      when_set (line self) (λ c, LineNotifier.send_new_listings carrier c listings) >>!
      when_set (slack self) (λ c, SlackNotifier.send_new_listings carrier c listings) >>!
      when_set (email self) (λ c, EmailNotifier.send_new_listings carrier c listings)
  end.

(** [Notifier.notify_error] *)
Definition notify_error (carrier : Carrier) (self : t) (message : string)
    : Exc (list notice) unit :=
  let error_text := "[SUUMO Monitor エラー]" +:+ nl +:+ message in
  when_set (line self) (λ c, LineNotifier.send carrier c error_text) >>!
  when_set (slack self) (λ c, SlackNotifier.send carrier c (":warning: " +:+ error_text)).

End Notifier.

(** ** config.py: the [Config] dataclass and [Config.validate] *)

Module Config.

Record t := mk {
  search_url : string;
  db_path : string;
  request_delay : Q;
  max_pages : Z;
  log_level : string;
  line_channel_access_token : option string;
  line_user_id : option string;
  slack_webhook_url : option string;
  email_enabled : bool;
  smtp_host : string;
  smtp_port : Z;
  smtp_username : string;
  smtp_password : string;
  email_from : string;
  email_to : list string
}.


(** The keys of the settings dictionary of [validate] whose value is
    falsy, in the order of the dictionary. *)
Definition missing (self : t) : list string :=
  (if truthy (smtp_username self) then [] else ["SMTP_USERNAME"])
  ++ (if truthy (smtp_password self) then [] else ["SMTP_PASSWORD"])
  ++ (if truthy (email_from self) then [] else ["EMAIL_FROM"])
  ++ (match email_to self with [] => ["EMAIL_TO"] | _ => [] end).

(** [repr] of a list of strings that hold no quote and no escape. *)
Definition repr_list (keys : list string) : string :=
  "[" +:+ String.concat ", " ((λ k, "'" +:+ k +:+ "'") <$> keys) +:+ "]".

(** [Config.validate] *)
Definition validate (self : t) : outcome unit :=
  let line_ok :=
    truthy_opt (line_channel_access_token self) && truthy_opt (line_user_id self) in
  let slack_ok := truthy_opt (slack_webhook_url self) in
  let email_ok := email_enabled self in
  if negb (line_ok || slack_ok || email_ok) then
    Raise ("通知手段が設定されていません。" +:+ nl
           +:+ "以下のいずれかを設定してください:" +:+ nl
           +:+ "  LINE: LINE_CHANNEL_ACCESS_TOKEN + LINE_USER_ID" +:+ nl
           +:+ "  Slack: SLACK_WEBHOOK_URL" +:+ nl
           +:+ "  メール: EMAIL_ENABLED=true + SMTP設定")
  else if truthy_opt (line_channel_access_token self)
          && negb (truthy_opt (line_user_id self)) then
    Raise "LINE_CHANNEL_ACCESS_TOKEN が設定されていますが LINE_USER_ID が未設定です。"
  else if email_enabled self then
    match missing self with
    | [] => Return tt
    | keys =>
        Raise ("EMAIL_ENABLED=true ですが、以下の設定が不足しています: " +:+ repr_list keys)
    end
  else Return tt.

End Config.

(** ** monitor.py *)

(** [build_notifier] *)
Definition build_notifier (cfg : Config.t) : outcome Notifier.t :=
  outcome_bind
    (if truthy_opt (Config.line_channel_access_token cfg)
        && truthy_opt (Config.line_user_id cfg)
     then outcome_bind
            (LineNotifier.init (default "" (Config.line_channel_access_token cfg))
                               (default "" (Config.line_user_id cfg)))
            (λ n, Return (Some n))
     else Return None)
    (λ line,
  outcome_bind
    (if truthy_opt (Config.slack_webhook_url cfg)
     then outcome_bind (SlackNotifier.init (default "" (Config.slack_webhook_url cfg)))
                       (λ n, Return (Some n))
     else Return None)
    (λ slack,
  let email :=
    if Config.email_enabled cfg
    then Some (EmailNotifier.mk (Config.smtp_host cfg) (Config.smtp_port cfg)
                 (Config.smtp_username cfg) (Config.smtp_password cfg)
                 (Config.email_from cfg) (Config.email_to cfg))
    else None in
  Notifier.init line slack email)).










Section run.
Context `{lib : PyLib} (net : Network) (carrier : Carrier).





End run.

(** *** Sample carriers and configuration *)

(** Every attempt is delivered. *)
Definition reliable_carrier : Carrier := λ _ _, Delivered.


Definition sample_config : Config.t :=
  Config.mk "https://suumo.jp/jj/chintai/?page=1" "data/suumo.db" 3 2 "INFO"
            (Some "token") (Some "U123") (Some "https://hooks.slack.com/services/T/B/X")
            true "smtp.gmail.com" 587 "user" "secret" "me@example.com" ["you@example.com"].


(** The notifier [build_notifier] gives for [sample_config]. *)
Definition sample_notifier : Notifier.t :=
  Notifier.mk (Some (LineNotifier.mk "U123" "token"))
              (Some (SlackNotifier.mk "https://hooks.slack.com/services/T/B/X"))
              (Some (EmailNotifier.mk "smtp.gmail.com" 587 "user" "secret"
                       "me@example.com" ["you@example.com"])).


(** ** Observations on traces *)

(** The GETs of a network trace. *)
Definition is_get (e : event) : bool :=
  match e with
  | Get _ => true
  | Sleep _ => false
  end.

(** The mails among the attempted notifications. *)
Definition is_mail (n : notice) : bool :=
  match n with
  | Mail _ _ _ _ _ _ _ _ _ => true
  | _ => false
  end.

(** The texts pushed to LINE among the attempted notifications. *)
Definition line_texts (ns : list notice) : list string :=
  omap (λ n, match n with LinePush _ _ text => Some text | _ => None end) ns.

(** A carrier whose failures are all of the kind the senders catch. *)
Definition never_crashes (carrier : Carrier) : Prop :=
  ∀ sent n msg, carrier sent n ≠ Crashed msg.

(** The pushes for a list of texts, in order. *)
Definition pushes_of (self : LineNotifier.t) (texts : list string) : list notice :=
  LinePush (LineNotifier.channel_access_token self) (LineNotifier.user_id self) <$> texts.

Definition is_line_push (n : notice) : bool :=
  match n with
  | LinePush _ _ _ => true
  | _ => false
  end.

Definition is_slack_post (n : notice) : bool :=
  match n with
  | SlackPost _ _ => true
  | _ => false
  end.






(** ** scraper.py with the exceptions of its library calls

    [urlparse] and [urljoin] raise [ValueError] on some strings (a host
    part with an unmatched bracket, as in [//[]), and [time.sleep] raises
    [ValueError] on a negative length.  Nothing in scraper.py catches them.
    The definitions of the scraper above give the value of every call that
    returns; the module [Raising] follows the same code and adds the calls
    that raise. *)

(** When [urlparse(href)] and [urljoin(base, url)] raise, and the message
    of their [ValueError]. *)
Class PyRaises := {
  urlparse_error : string → option string;
  urljoin_error : string → string → option string
}.

(** A computation without effects that may raise, run where there is a
    state. *)
Definition raising {S A} (o : outcome A) : Exc S A := λ s, (o, s).

(** A [for] loop whose body gives the items to append and may raise: the
    first exception ends the loop and leaves the function. *)
Fixpoint for_each {A B} (body : A → outcome (list B)) (xs : list A) : outcome (list B) :=
  match xs with
  | [] => Return []
  | x :: rest =>
      outcome_bind (body x) (λ items,
      outcome_bind (for_each body rest) (λ more, Return (items ++ more)))
  end.

Module Raising.

(** [time.sleep(seconds)] *)
Definition sleep (seconds : Q) : Exc (list event) unit :=
  λ trace,
    if Qle_bool 0 seconds then (Return tt, trace ++ [Sleep seconds])
    else (Raise "sleep length must be non-negative", trace).

Section scraper.
Context `{lib : PyLib} `{err : PyRaises}.

(** [urljoin(base, url)] *)
Definition urljoin (base url : string) : outcome string :=
  match urljoin_error base url with
  | Some msg => Raise msg
  | None => Return (urljoin base url)
  end.

(** [SuumoScraper._extract_listing_id] *)
Definition _extract_listing_id (href : string) : outcome (option string) :=
  match re_search_jnc href with
  | Some group1 => Return (Some group1)
  | None =>
      match urlparse_error href with
      | Some msg => Raise msg
      | None =>
          let qs := parse_qs_query href in
          match fst <$> (qs !! "bc") with
          | Some bc => Return (if truthy bc then Some ("bc_" +:+ bc) else None)
          | None => Return None
          end
      end
  end.

(** The body of the [for row in unit_rows] loop; [Return None] stands for
    [continue]. *)
Definition parse_row (building_name address station_access age_floors : string)
    (row : Tag) : outcome (option Listing) :=
  match select_one (SELECTORS unit_link) row with
  | None => Return None
  | Some link_tag =>
      if negb (truthy_opt (get link_tag "href")) then Return None
      else
        let href := default "" (get link_tag "href") in
        outcome_bind (_extract_listing_id href) (λ listing_id,
        if negb (truthy_opt listing_id) then Return None
        else
          let row_text := get_text " " row in
          let unit_floor := default "" (re_search_floor row_text) in
          outcome_bind (urljoin BASE_URL href) (λ url,
          Return (Some (mkListing (default "" listing_id)
                                  url
                                  building_name
                                  address
                                  station_access
                                  (_text row (SELECTORS unit_rent))
                                  (_text row (SELECTORS unit_layout))
                                  (_text row (SELECTORS unit_area))
                                  age_floors
                                  unit_floor))))
  end.

(** The body of the [for card in cards] loop. *)
Definition parse_card (card : Tag) : outcome (list Listing) :=
  let building_name := _text card (SELECTORS k_building_name) in
  let address := _text card (SELECTORS k_address) in
  let station_access := _text card (SELECTORS k_station_access) in
  let age_floors := _text card (SELECTORS k_age_floors) in
  let rows := select (SELECTORS unit_rows) card in
  for_each
    (λ row, outcome_bind (parse_row building_name address station_access age_floors row)
              (λ listing, Return (option_list listing)))
    rows.

(** [SuumoScraper._parse_listings] *)
Definition _parse_listings (soup : Tag) : outcome (list Listing) :=
  let cards := select (SELECTORS listing_item) soup in
  for_each parse_card cards.

(** [SuumoScraper._get_next_page_url] *)
Definition _get_next_page_url (soup : Tag) : outcome (option string) :=
  match list_find (λ a, is_next_link a = true) (select (SELECTORS next_page) soup) with
  | Some (_, a) =>
      outcome_bind (urljoin BASE_URL (default "" (get a "href")))
        (λ url, Return (Some url))
  | None => Return None
  end.

Context (self : SuumoScraper) (net : Network).

(** The [while] loop of [fetch_all_listings] on its three locals.  The
    result is [Return None] only when [fuel] iterations did not reach the
    end of the loop. *)
Fixpoint fetch_loop (fuel : nat) (all_listings : list Listing)
    (url : option string) (page_num : Z) : Exc (list event) (option (list Listing)) :=
  if truthy_opt url && (page_num <=? max_pages self)%Z then
    match fuel with
    | O => exc_ret None
    | S fuel' =>
        let! html := lift (_fetch_page net (default "" url)) in
        if negb (truthy_opt html) then exc_ret (Some all_listings)
        else
          let soup := BeautifulSoup (default "" html) in
          let! page_listings := raising (_parse_listings soup) in
          let all_listings := all_listings ++ page_listings in
          let! url := raising (_get_next_page_url soup) in
          let page_num := (page_num + 1)%Z in
          (if truthy_opt url then sleep (request_delay self) else exc_ret tt) >>!
          fetch_loop fuel' all_listings url page_num
    end
  else exc_ret (Some all_listings).

(** [SuumoScraper.fetch_all_listings]; the loop runs at most [max_pages]
    times. *)
Definition fetch_all_listings (search_url : string)
    : Exc (list event) (option (list Listing)) :=
  fetch_loop (Z.to_nat (max_pages self)) [] (Some search_url) 1.
End scraper.

End Raising.

(** No call of [urlparse] or [urljoin] raises. *)
Definition never_raises (err : PyRaises) : Prop :=
  (∀ href, urlparse_error href = None) ∧ (∀ base url, urljoin_error base url = None).

(** *** Sample exceptions and pages

    [urlparse] on the sample hrefs, which have no scheme: the host part
    after a leading [//] must not hold one bracket without the other.
    [urljoin] parses its second argument the same way. *)
Definition sample_urlparse_error (href : string) : option string :=
  if String.prefix "//" href then
    let netloc :=
      take_while (λ c, negb (bool_decide (c ∈ ["/"; "?"; "#"]%char)))
                 (String.substring 2 (String.length href) href) in
    if xorb (contains "[" netloc) (contains "]" netloc)
    then Some "Invalid IPv6 URL" else None
  else None.

Definition sample_raises : PyRaises :=
  {| urlparse_error := sample_urlparse_error;
     urljoin_error := λ _ url, sample_urlparse_error url |}.


(** A page without any building card whose next link has an href that
    [urljoin] rejects. *)
Definition bad_next_page : Tag :=
  document [pagination ">" "//["].


(** * The de-duplication store *)

Section store_lemmas.
Implicit Types (db : Database) (l : Listing) (ls : list Listing).

Lemma truthy_true s : truthy s = true ↔ s ≠ "".
Proof. unfold truthy. apply bool_decide_eq_true. Qed.

Lemma truthy_false s : truthy s = false ↔ s = "".
Proof.
  unfold truthy. rewrite bool_decide_eq_false.
  split; [apply dec_stable | intros -> H; by apply H].
Qed.

Lemma append_nonempty_r (s t : string) : t ≠ "" → s +:+ t ≠ "".
Proof. intros Ht. destruct s; simpl; [done | discriminate]. Qed.

Lemma _physical_key_nonempty l : _physical_key l ≠ "".
Proof. unfold _physical_key. by apply append_nonempty_r. Qed.


(** The two SELECT statements and a whole [filter_new_listings] call leave
    the database as it was. *)
Lemma select_listing_id_in_frame ids db : (select_listing_id_in ids db).2 = db.
Proof. reflexivity. Qed.

Lemma select_physical_key_in_frame pkeys db : (select_physical_key_in pkeys db).2 = db.
Proof. reflexivity. Qed.

Lemma filter_new_listings_state ls db : (filter_new_listings ls db).2 = db.
Proof.
  destruct ls as [|l ls]; [done|].
  unfold filter_new_listings, _conn, bind.
  destruct (_physical_key <$> _); reflexivity.
Qed.

(** What the two sets fetched from the store contain. *)
Lemma known_ids_spec ids db (x : string) :
  x ∈ (list_to_set (select_listing_id_in ids db).1 : gset string) ↔
  x ∈ ids ∧ x ∈ col_listing_id <$> listings db.
Proof.
  rewrite elem_of_list_to_set. unfold select_listing_id_in. simpl.
  rewrite !list_elem_of_fmap. split.
  - intros (r & -> & Hr). apply list_elem_of_filter in Hr as [? ?]. eauto.
  - intros (Hx & r & -> & Hr). exists r. split; [done|].
    by apply list_elem_of_filter.
Qed.

Lemma known_pkeys_spec pkeys db (x : string) :
  x ∈ (list_to_set (filter (λ k, truthy k = true) (select_physical_key_in pkeys db).1)
         : gset string) ↔
  x ≠ "" ∧ x ∈ pkeys ∧ x ∈ col_physical_key <$> listings db.
Proof.
  rewrite elem_of_list_to_set, list_elem_of_filter, truthy_true.
  unfold select_physical_key_in. simpl.
  rewrite !list_elem_of_fmap. split.
  - intros (? & r & -> & Hr). apply list_elem_of_filter in Hr as [? ?]. eauto.
  - intros (? & Hx & r & -> & Hr). split; [done|]. exists r. split; [done|].
    by apply list_elem_of_filter.
Qed.

(** [is_new] decides rules 1 and 2 once the two sets agree with the store
    on the candidate at hand. *)
Lemma is_new_rules db (K P : gset string) l :
  (listing_id l ∈ K ↔ listing_id l ∈ col_listing_id <$> listings db) →
  (unit_floor l ≠ "" →
     _physical_key l ∈ P ↔ _physical_key l ∈ col_physical_key <$> listings db) →
  is_new K P l = true ↔ rule1 db l ∧ rule2 db l.
Proof.
  intros HK HP. unfold is_new, rule1, rule2.
  case_bool_decide as Hid.
  { split; [done|]. intros [Hn _]. exfalso. apply Hn. by apply HK. }
  assert (listing_id l ∉ col_listing_id <$> listings db) as Hnid
    by (intros ?; by apply Hid, HK).
  destruct (truthy (unit_floor l)) eqn:Hfl; simpl.
  - apply truthy_true in Hfl. specialize (HP Hfl).
    case_bool_decide as Hpk.
    + split; [done|]. intros [_ Hall]. exfalso.
      apply HP, list_elem_of_fmap in Hpk as (r & Heq & Hr).
      specialize (Hall Hfl). rewrite Forall_forall in Hall.
      apply Hnid. rewrite <- (Hall r Hr (eq_sym Heq)).
      by apply list_elem_of_fmap_2.
    + split; [|done]. intros _. split; [done|]. intros _.
      apply Forall_forall. intros r Hr Heq. exfalso. apply Hpk, HP.
      rewrite <- Heq. by apply list_elem_of_fmap_2.
  - apply truthy_false in Hfl. split; [|done]. intros _. split; [done|].
    intros Hne. by destruct Hne.
Qed.

(** The loop keeps, of the candidates that pass [is_new], the first
    occurrence of every physical key; [earlier] lists the candidates
    already visited by rule 3 and [seen] is the set of their keys. *)
Lemma filter_loop_keep_first db (K P : gset string) ls :
  ∀ (seen : gset string) (result earlier : list Listing),
  (∀ l, l ∈ ls → is_new K P l = true ↔ rule1 db l ∧ rule2 db l) →
  (∀ k, k ∈ seen ↔ ∃ e, e ∈ earlier ∧ unit_floor e ≠ "" ∧ _physical_key e = k) →
  filter_loop K P ls seen result =
  result ++ keep_first_occurrence earlier
              (filter (λ l, rule2 db l ∧ rule1 db l) ls).
Proof.
  induction ls as [|l ls IH]; intros seen result earlier Hnew Hseen; simpl.
  { by rewrite app_nil_r. }
  assert (∀ l', l' ∈ ls → is_new K P l' = true ↔ rule1 db l' ∧ rule2 db l') as Hnew'
    by (intros l' Hl'; apply Hnew; by right).
  pose proof (Hnew l (list_elem_of_here _ _)) as Hl.
  rewrite filter_cons.
  destruct (is_new K P l) eqn:Hisnew; simpl.
  - rewrite decide_True by (apply and_comm; by apply Hl).
    simpl. destruct (truthy (unit_floor l)) eqn:Hfl.
    + apply truthy_true in Hfl. case_bool_decide as Hin.
      * rewrite decide_False.
        2:{ intros H3. specialize (H3 Hfl). rewrite Forall_forall in H3.
            apply Hseen in Hin as (e & He & Hfe & Hke). by apply (H3 e He Hfe). }
        apply IH; [done|]. intros k. rewrite Hseen. split.
        -- intros (e & He & ?). exists e. rewrite elem_of_app. eauto.
        -- intros (e & He & Hfe & Hke). apply elem_of_app in He as [He|He]; [eauto|].
           apply list_elem_of_singleton in He as ->. subst k. by apply Hseen.
      * rewrite decide_True.
        2:{ intros _. apply Forall_forall. intros e He Hfe Hke.
            apply Hin, Hseen. eauto. }
        rewrite (IH _ _ (earlier ++ [l])); [by rewrite <- app_assoc|done|].
        intros k. rewrite elem_of_union, elem_of_singleton, Hseen. split.
        -- intros [->|(e & He & ?)].
           ++ exists l. rewrite elem_of_app, list_elem_of_singleton. eauto.
           ++ exists e. rewrite elem_of_app. eauto.
        -- intros (e & He & Hfe & Hke). apply elem_of_app in He as [He|He]; [eauto|].
           apply list_elem_of_singleton in He as ->. by left.
    + apply truthy_false in Hfl.
      rewrite decide_True by (intros Hne; by destruct Hne).
      rewrite (IH _ _ (earlier ++ [l])); [by rewrite <- app_assoc|done|].
      intros k. rewrite Hseen. split.
      * intros (e & He & ?). exists e. rewrite elem_of_app. eauto.
      * intros (e & He & Hfe & Hke). apply elem_of_app in He as [He|He]; [eauto|].
        apply list_elem_of_singleton in He as ->. by destruct Hfe.
  - rewrite decide_False.
    2:{ intros [? ?]. assert (false = true) by (by apply Hl). done. }
    by apply IH.
Qed.

Lemma seen_empty (k : string) :
  k ∈ (∅ : gset string) ↔
  ∃ e : Listing, e ∈ [] ∧ unit_floor e ≠ "" ∧ _physical_key e = k.
Proof.
  split; [intros Hk; by apply not_elem_of_empty in Hk|].
  intros (e & He & _). by apply elem_of_nil in He.
Qed.

Lemma filter_new_listings_refines db ls :
  (filter_new_listings ls db).1 = filterNew_survivors db ls.
Proof.
  destruct ls as [|l0 ls0]; [done|].
  unfold filterNew_survivors, filter_new_listings. rewrite list_filter_filter.
  remember (l0 :: ls0) as ls eqn:Hls. clear Hls.
  assert (∀ l, l ∈ ls → unit_floor l ≠ "" →
            _physical_key l ∈
              _physical_key <$> filter (λ l, truthy (unit_floor l) = true) ls) as Hpk.
  { intros l Hl Hfl. apply list_elem_of_fmap_2, list_elem_of_filter.
    by rewrite truthy_true. }
  assert (∀ l, l ∈ ls →
            listing_id l ∈
              (list_to_set (select_listing_id_in (listing_id <$> ls) db).1 : gset string) ↔
            listing_id l ∈ col_listing_id <$> listings db) as Hid.
  { intros l Hl. rewrite known_ids_spec. split; [by intros [_ ?]|].
    intros ?. split; [|done]. by apply list_elem_of_fmap_2. }
  unfold _conn, bind.
  destruct (select_listing_id_in (listing_id <$> ls) db) as [id_rows db1] eqn:Hsel1.
  assert (db1 = db) as -> by (by inversion Hsel1).
  assert (id_rows = (select_listing_id_in (listing_id <$> ls) db).1) as ->
    by (by rewrite Hsel1).
  clear Hsel1.
  destruct (_physical_key <$> filter (λ l, truthy (unit_floor l) = true) ls)
    as [|pk pks] eqn:Hpkeys.
  - unfold ret. cbn [fst snd].
    rewrite (filter_loop_keep_first db _ _ ls ∅ [] []); [done| |apply seen_empty].
    intros l Hl. apply is_new_rules; [by apply Hid|].
    intros Hfl. specialize (Hpk l Hl Hfl). by apply elem_of_nil in Hpk.
  - rewrite <- Hpkeys in *. clear Hpkeys.
    destruct (select_physical_key_in _ db) as [pk_rows db2] eqn:Hsel2.
    assert (db2 = db) as -> by (by inversion Hsel2).
    assert (pk_rows = (select_physical_key_in
              (_physical_key <$> filter (λ l, truthy (unit_floor l) = true) ls) db).1)
      as -> by (by rewrite Hsel2).
    clear Hsel2. unfold ret. cbn [fst snd].
    rewrite (filter_loop_keep_first db _ _ ls ∅ [] []); [done| |apply seen_empty].
    intros l Hl. apply is_new_rules; [by apply Hid|].
    intros Hfl. rewrite known_pkeys_spec. split; [by intros (_ & _ & ?)|].
    intros ?. split; [apply _physical_key_nonempty|]. split; [|done].
    by apply Hpk.
Qed.
End store_lemmas.

Section store_updates.
Implicit Types (db : Database) (l : Listing) (ls : list Listing)
  (row : ListingRow) (rows : list ListingRow).

Lemma filter_none {A} (P : A → Prop) `{!∀ x, Decision (P x)} (xs : list A) :
  (∀ x, x ∈ xs → ¬ P x) → filter P xs = [].
Proof.
  induction xs as [|x xs IH]; intros Hno; [done|].
  rewrite filter_cons_False by (apply Hno; by left).
  apply IH. intros y Hy. apply Hno. by right.
Qed.

(** *** Rule 3 only looks at earlier candidates that have a floor *)




Lemma keep_first_occurrence_elem ls : ∀ (E : list Listing) l,
  l ∈ keep_first_occurrence E ls → l ∈ ls.
Proof.
  induction ls as [|x ls IH]; intros E l; simpl; [done|].
  case_decide.
  - rewrite !elem_of_cons. intros [->|?]; [by left|right; eauto].
  - intros ?. right. eauto.
Qed.

Lemma keep_first_occurrence_no_floor ls : ∀ (E : list Listing) l,
  l ∈ ls → unit_floor l = "" → l ∈ keep_first_occurrence E ls.
Proof.
  induction ls as [|x ls IH]; intros E l Hl Hfl; simpl.
  { by apply elem_of_nil in Hl. }
  apply elem_of_cons in Hl as [<-|Hl].
  - rewrite decide_True by (intros Hne; by destruct Hne). by left.
  - case_decide; [right|]; by apply IH.
Qed.

(** *** INSERT OR IGNORE *)

Lemma insert_or_ignore_present row db :
  col_listing_id row ∈ col_listing_id <$> listings db →
  insert_or_ignore row db = (tt, db).
Proof. intros Hin. unfold insert_or_ignore. by rewrite decide_True. Qed.

Lemma insert_or_ignore_ids row db (x : string) :
  x ∈ col_listing_id <$> listings (insert_or_ignore row db).2 ↔
  x ∈ col_listing_id <$> listings db ∨ x = col_listing_id row.
Proof.
  unfold insert_or_ignore. case_decide as Hin; simpl.
  - split; [by left|]. by intros [?| ->].
  - rewrite fmap_app, elem_of_app. simpl. by rewrite list_elem_of_singleton.
Qed.

Lemma insert_or_ignore_primary_key row db :
  primary_key_ok db → primary_key_ok (insert_or_ignore row db).2.
Proof.
  unfold primary_key_ok, insert_or_ignore. intros Hnd.
  case_decide as Hin; simpl; [done|].
  rewrite fmap_app. apply NoDup_app. split; [done|]. split.
  - intros x Hx Hx'. apply list_elem_of_singleton in Hx' as ->. by apply Hin.
  - apply NoDup_singleton.
Qed.

Lemma executemany_present rows : ∀ db,
  (∀ row, row ∈ rows → col_listing_id row ∈ col_listing_id <$> listings db) →
  executemany rows db = (tt, db).
Proof.
  induction rows as [|row rows IH]; intros db Hall; [done|].
  simpl. unfold bind.
  rewrite insert_or_ignore_present by (apply Hall; by left).
  apply IH. intros r Hr. apply Hall. by right.
Qed.

Lemma executemany_ids rows : ∀ db (x : string),
  x ∈ col_listing_id <$> listings (executemany rows db).2 ↔
  x ∈ col_listing_id <$> listings db ∨ x ∈ col_listing_id <$> rows.
Proof.
  induction rows as [|row rows IH]; intros db x; simpl.
  { split; [by left|]. intros [?|Hx]; [done|]. by apply elem_of_nil in Hx. }
  unfold bind. destruct (insert_or_ignore row db) as [[] db'] eqn:Hins.
  rewrite IH. replace db' with (insert_or_ignore row db).2 by (by rewrite Hins).
  rewrite insert_or_ignore_ids, elem_of_cons. tauto.
Qed.

Lemma executemany_primary_key rows : ∀ db,
  primary_key_ok db → primary_key_ok (executemany rows db).2.
Proof.
  induction rows as [|row rows IH]; intros db Hpk; [done|].
  simpl. unfold bind. destruct (insert_or_ignore row db) as [[] db'] eqn:Hins.
  apply IH. replace db' with (insert_or_ignore row db).2 by (by rewrite Hins).
  by apply insert_or_ignore_primary_key.
Qed.

(** Rows already stored are never rewritten by a save: the old table is a
    prefix of the new one and the run log is untouched. *)
Lemma executemany_prefix rows : ∀ db,
  listings db `prefix_of` listings (executemany rows db).2 ∧
  run_log (executemany rows db).2 = run_log db.
Proof.
  induction rows as [|row rows IH]; intros db; [done|].
  simpl. unfold bind. destruct (insert_or_ignore row db) as [[] db'] eqn:Hins.
  destruct (IH db') as [Hpre Hlog].
  assert (listings db `prefix_of` listings db' ∧ run_log db' = run_log db) as [Hpre' Hlog'].
  { unfold insert_or_ignore in Hins. case_decide; inversion Hins; subst; simpl.
    - done.
    - split; [by apply prefix_app_r|done]. }
  split; [by etrans|congruence].
Qed.

Lemma save_listings_ids now ls db (x : string) :
  x ∈ col_listing_id <$> listings (save_listings now ls db).2 ↔
  x ∈ col_listing_id <$> listings db ∨ x ∈ listing_id <$> ls.
Proof.
  destruct ls as [|l0 ls0].
  { simpl. split; [by left|]. intros [?|Hx]; [done|]. by apply elem_of_nil in Hx. }
  unfold save_listings, _conn. rewrite executemany_ids.
  by rewrite <- list_fmap_compose.
Qed.

Lemma save_listings_primary_key now ls db :
  primary_key_ok db → primary_key_ok (save_listings now ls db).2.
Proof.
  destruct ls; [done|]. unfold save_listings, _conn. apply executemany_primary_key.
Qed.

Lemma save_listings_present now ls db :
  (∀ l, l ∈ ls → listing_id l ∈ col_listing_id <$> listings db) →
  save_listings now ls db = (tt, db).
Proof.
  intros Hall. destruct ls as [|l0 ls0]; [done|].
  unfold save_listings, _conn. apply executemany_present.
  intros row Hrow. apply list_elem_of_fmap in Hrow as (l & -> & Hl).
  by apply Hall.
Qed.

Lemma unique_row (rows : list ListingRow) (x : string) :
  NoDup (col_listing_id <$> rows) → x ∈ col_listing_id <$> rows →
  length (filter (λ r, col_listing_id r = x) rows) = 1%nat.
Proof.
  induction rows as [|r rows IH]; intros Hnd Hx.
  { by apply elem_of_nil in Hx. }
  rewrite fmap_cons in Hnd, Hx. apply NoDup_cons in Hnd as [Hnotin Hnd].
  rewrite filter_cons. case_decide as Hr.
  - subst x. rewrite filter_none; [done|].
    intros r' Hr' Heq. apply Hnotin. rewrite <- Heq. by apply list_elem_of_fmap_2.
  - apply IH; [done|]. apply elem_of_cons in Hx as [?|?]; [congruence|done].
Qed.

Lemma same_id_same_row (rows : list ListingRow) (r1 r2 : ListingRow) :
  NoDup (col_listing_id <$> rows) → r1 ∈ rows → r2 ∈ rows →
  col_listing_id r1 = col_listing_id r2 → r1 = r2.
Proof.
  induction rows as [|r rows IH]; intros Hnd H1 H2 Heq.
  { by apply elem_of_nil in H1. }
  rewrite fmap_cons in Hnd. apply NoDup_cons in Hnd as [Hnotin Hnd].
  apply elem_of_cons in H1 as [->|H1]; apply elem_of_cons in H2 as [->|H2].
  - done.
  - exfalso. apply Hnotin. rewrite Heq. by apply list_elem_of_fmap_2.
  - exfalso. apply Hnotin. rewrite <- Heq. by apply list_elem_of_fmap_2.
  - by apply IH.
Qed.

(** *** DELETE ... NOT IN *)

Lemma delete_kept_rows (ids : list string) rows :
  filter (λ r, ¬ (col_listing_id r ∉ ids)) rows =
  filter (λ r, col_listing_id r ∈ ids) rows.
Proof.
  apply list_filter_iff. intros r. split; [apply dec_stable|]. intros ? Hn. by apply Hn.
Qed.

Lemma filter_complement_length {A} (P : A → Prop) `{!∀ x, Decision (P x)} (xs : list A) :
  (length (filter P xs) + length (filter (λ x, ¬ P x) xs))%nat = length xs.
Proof.
  induction xs as [|x xs IH]; [done|].
  rewrite !filter_cons. destruct (decide (P x)).
  - rewrite decide_False by tauto. simpl. lia.
  - rewrite decide_True by done. simpl. lia.
Qed.
End store_updates.

Section store_spec_lemmas.
Implicit Types (db : Database) (l : Listing) (ls : list Listing).

Lemma keep_first_occurrence_sublist ls : ∀ E : list Listing,
  keep_first_occurrence E ls `sublist_of` ls.
Proof.
  induction ls as [|l ls IH]; intros E; simpl; [done|].
  case_decide; [apply sublist_skip | apply sublist_cons]; apply IH.
Qed.

Lemma filterNew_survivors_sublist db ls : filterNew_survivors db ls `sublist_of` ls.
Proof.
  unfold filterNew_survivors. etrans; [apply keep_first_occurrence_sublist|].
  etrans; apply sublist_filter.
Qed.

Lemma filterNew_survivors_rule1 db ls l : l ∈ filterNew_survivors db ls → rule1 db l.
Proof.
  unfold filterNew_survivors. intros Hl. apply keep_first_occurrence_elem in Hl.
  apply list_elem_of_filter in Hl as [_ Hl].
  by apply list_elem_of_filter in Hl as [? _].
Qed.

Lemma filterNew_survivors_no_floor db ls l :
  l ∈ ls → unit_floor l = "" → l ∈ filterNew_survivors db ls ↔ rule1 db l.
Proof.
  intros Hl Hfl. split; [apply filterNew_survivors_rule1|]. intros H1.
  unfold filterNew_survivors. apply keep_first_occurrence_no_floor; [|done].
  apply list_elem_of_filter. split; [intros Hne; by destruct Hne|].
  by apply list_elem_of_filter.
Qed.

End store_spec_lemmas.

(** ** Claims about the store *)

(** The rules as worded and the rules in precedence agree on a batch whose
    candidates all pass rules 1 and 2, for instance on an empty store: they
    differ only where a candidate that rule 1 or 2 removes comes before
    another with its key. *)
Lemma filter_batch_keep_first db ls : ∀ earlier : list Listing,
  (∀ l, l ∈ ls → rule1 db l ∧ rule2 db l) →
  filter_batch db earlier ls = keep_first_occurrence earlier ls.
Proof.
  induction ls as [|l ls IH]; intros earlier Hpass; [done|]. simpl.
  rewrite IH by (intros l' Hl'; apply Hpass; by right).
  destruct (Hpass l) as [H1 H2]; [by left|].
  apply decide_ext. tauto.
Qed.

Lemma filterNew_worded_agrees db candidates :
  (∀ l, l ∈ candidates → rule1 db l ∧ rule2 db l) →
  filterNew_worded db candidates = (filter_new_listings candidates db).1.
Proof.
  intros Hpass. rewrite filter_new_listings_refines.
  unfold filterNew_worded, filterNew_survivors.
  rewrite filter_batch_keep_first by done. f_equal.
  assert (filter (rule1 db) candidates = candidates) as ->.
  { clear -Hpass. induction candidates as [|l ls IH]; [done|].
    rewrite filter_cons_True by (apply Hpass; by left).
    f_equal. apply IH. intros l' Hl'. apply Hpass. by right. }
  clear -Hpass. induction candidates as [|l ls IH]; [done|].
  rewrite filter_cons_True by (apply Hpass; by left).
  f_equal. apply IH. intros l' Hl'. apply Hpass. by right.
Qed.

(** C1 (as the code has it): for every store state and every candidate list,
    [filter_new_listings] returns exactly the subsequence of the candidates,
    in input order, that survives the three exclusion rules applied in
    precedence: rule 1 (id not in the store), then rule 2 (with a floor, the
    physical key is not stored under a different id), then rule 3 (with a
    floor, the physical key did not occur earlier among the candidates left by
    rules 1 and 2; the first occurrence wins).  Candidates without a floor
    pass rules 2 and 3 by definition. *)
Theorem C1_filter_new_listings_three_rules (db : Database) (candidates : list Listing) :
  (filter_new_listings candidates db).1 =
    keep_first_occurrence [] (filter (rule2 db) (filter (rule1 db) candidates)) ∧
  (filter_new_listings candidates db).1 `sublist_of` candidates.
Proof.
  rewrite filter_new_listings_refines. split; [done|apply filterNew_survivors_sublist].
Qed.

(** Rule 3 is applied after rules 1 and 2: a candidate that rule 1 removed
    does not count as an earlier occurrence of its physical key.  Here
    [jnc_1] is already stored under the key of another address, so the
    second candidate, the same room under a new id, is kept. *)
Example rule3_ranges_over_survivors :
  listing_id <$>
    (filter_new_listings
       [sample_listing "jnc_1" "Tokyo 9-9" "3F"; sample_listing "jnc_7" "Tokyo 9-9" "3F"]
       sample_db).1 = ["jnc_7"].
Proof. reflexivity. Qed.

(** Rule 3 as worded looks at the whole candidate batch.  With listing
    [jnc_1] stored, the batch holds [jnc_1] and then [jnc_7], the same room
    under another id: as worded, [jnc_7] is dropped, its key having been
    seen earlier in the batch; the code returns it, [jnc_1] having been
    removed by rule 1 before its key was recorded. *)
Lemma C1_counterexample :
  (filter_new_listings
     [sample_listing "jnc_1" "Tokyo 9-9" "3F"; sample_listing "jnc_7" "Tokyo 9-9" "3F"]
     sample_db).1 = [sample_listing "jnc_7" "Tokyo 9-9" "3F"] ∧
  filterNew_worded sample_db
    [sample_listing "jnc_1" "Tokyo 9-9" "3F"; sample_listing "jnc_7" "Tokyo 9-9" "3F"] = [].
Proof. split; vm_compute; reflexivity. Qed.

Lemma filterNew_survivors_rule2 db ls l : l ∈ filterNew_survivors db ls → rule2 db l.
Proof.
  unfold filterNew_survivors. intros Hl. apply keep_first_occurrence_elem in Hl.
  by apply list_elem_of_filter in Hl as [? _].
Qed.

Lemma rules_key_not_stored db l :
  rule1 db l → rule2 db l → unit_floor l ≠ "" →
  _physical_key l ∉ col_physical_key <$> listings db.
Proof.
  intros H1 H2 Hfl Hin. apply list_elem_of_fmap in Hin as (r & Hkey & Hr).
  specialize (H2 Hfl). rewrite Forall_forall in H2.
  apply H1. rewrite <- (H2 r Hr (eq_sym Hkey)). by apply list_elem_of_fmap_2.
Qed.





(** C5: saving the same batch twice leaves exactly one row per listing id
    (the primary key stays unique and every saved id has one row); the second
    call changes nothing, so no [first_seen_at] is rewritten. *)
Theorem C5_save_twice_idempotent
    (db : Database) (ls : list Listing) (now1 now2 : string) :
  primary_key_ok db →
  let db1 := (save_listings now1 ls db).2 in
  let db2 := (save_listings now2 ls db1).2 in
  db2 = db1 ∧
  primary_key_ok db2 ∧
  (∀ l, l ∈ ls →
     length (filter (λ r, col_listing_id r = listing_id l) (listings db2)) = 1%nat) ∧
  (∀ r1 r2, r1 ∈ listings db1 → r2 ∈ listings db2 →
     col_listing_id r1 = col_listing_id r2 →
     col_first_seen_at r2 = col_first_seen_at r1).
Proof.
  intros Hpk db1 db2.
  assert (primary_key_ok db1) as Hpk1 by (by apply save_listings_primary_key).
  assert (db2 = db1) as Heq.
  { unfold db2. rewrite save_listings_present; [done|].
    intros l Hl. apply save_listings_ids. right. by apply list_elem_of_fmap_2. }
  split; [done|]. rewrite Heq. split; [done|]. split.
  - intros l Hl. apply unique_row; [done|].
    apply save_listings_ids. right. by apply list_elem_of_fmap_2.
  - intros r1 r2 H1 H2 Hid. by rewrite (same_id_same_row _ r1 r2 Hpk1 H1 H2 Hid).
Qed.

Lemma C5_witness :
  primary_key_ok sample_db ∧
  (save_listings "t2" [sample_listing "jnc_3" "Tokyo 3-3" "2F"]
     (save_listings "t1" [sample_listing "jnc_3" "Tokyo 3-3" "2F"] sample_db).2).2 =
  (save_listings "t1" [sample_listing "jnc_3" "Tokyo 3-3" "2F"] sample_db).2.
Proof.
  assert (primary_key_ok sample_db) as Hpk.
  { unfold primary_key_ok. apply (bool_decide_unpack _). vm_compute. exact I. }
  split; [exact Hpk|].
  exact (proj1 (C5_save_twice_idempotent sample_db
                  [sample_listing "jnc_3" "Tokyo 3-3" "2F"] "t1" "t2" Hpk)).
Defined.

(** C6: [delete_expired_listings] with an empty id list deletes nothing and
    returns 0; with a non-empty list it removes exactly the rows whose id is
    absent from the list, keeps the others unchanged and in order, and
    returns the number of rows removed. *)
Theorem C6_delete_expired_exact (db : Database) (current_listing_ids : list string) :
  delete_expired_listings [] db = (0, db) ∧
  (current_listing_ids ≠ [] →
   let n := (delete_expired_listings current_listing_ids db).1 in
   let db' := (delete_expired_listings current_listing_ids db).2 in
   listings db' = filter (λ r, col_listing_id r ∈ current_listing_ids) (listings db) ∧
   (∀ r, r ∈ listings db' ↔ r ∈ listings db ∧ col_listing_id r ∈ current_listing_ids) ∧
   n = Z.of_nat (length (filter (λ r, col_listing_id r ∉ current_listing_ids)
                           (listings db))) ∧
   n = Z.of_nat (length (listings db)) - Z.of_nat (length (listings db')) ∧
   run_log db' = run_log db).
Proof.
  split; [done|]. intros Hne.
  destruct current_listing_ids as [|i ids]; [done|].
  unfold delete_expired_listings, _conn, delete_listing_id_not_in.
  cbn [fst snd listings run_log]. rewrite delete_kept_rows.
  split; [done|]. split.
  { intros r. rewrite list_elem_of_filter. tauto. }
  split; [done|]. split; [|done].
  pose proof (filter_complement_length
                (λ r, col_listing_id r ∉ i :: ids) (listings db)) as Hlen.
  cbv beta in Hlen. rewrite delete_kept_rows in Hlen. lia.
Qed.

Lemma C6_witness :
  ["jnc_2"] ≠ [] ∧
  listings (delete_expired_listings ["jnc_2"] sample_db).2 =
    filter (λ r, col_listing_id r ∈ ["jnc_2"]) (listings sample_db).
Proof.
  assert (["jnc_2"] ≠ []) as Hne by discriminate.
  split; [exact Hne|].
  exact (proj1 (proj2 (C6_delete_expired_exact sample_db ["jnc_2"]) Hne)).
Defined.

(** C10: [filter_new_listings] only reads: the listings table and the
    run_log table, and with them the whole database, are the same before and
    after the call. *)
Theorem C10_filter_new_listings_read_only (db : Database) (candidates : list Listing) :
  listings (filter_new_listings candidates db).2 = listings db ∧
  run_log (filter_new_listings candidates db).2 = run_log db ∧
  (filter_new_listings candidates db).2 = db.
Proof. by rewrite filter_new_listings_state. Qed.

(** * The scraper *)

Section parse_lemmas.
Context `{lib : PyLib}.

Lemma elem_of_flat_map {A B} (f : A → list B) (xs : list A) (y : B) :
  y ∈ flat_map f xs ↔ ∃ x, x ∈ xs ∧ y ∈ f x.
Proof.
  rewrite list_elem_of_In, in_flat_map. split.
  - intros (x & Hx & Hy). exists x. by rewrite !list_elem_of_In.
  - intros (x & Hx & Hy). exists x. by rewrite <- !list_elem_of_In.
Qed.

Lemma truthy_opt_Some (o : option string) :
  truthy_opt o = true ↔ ∃ s, o = Some s ∧ s ≠ "".
Proof.
  destruct o as [s|]; simpl.
  - rewrite truthy_true. split; [eauto|]. by intros (? & [= <-] & ?).
  - split; [done|]. by intros (? & ? & _).
Qed.


Lemma _extract_listing_id_None (href : string) :
  re_search_jnc href = None → parse_qs_query href !! "bc" = None →
  _extract_listing_id href = None.
Proof. unfold _extract_listing_id. by intros -> ->. Qed.

Lemma parse_row_Some (bn ad sa af : string) (row : Tag) (l : Listing) :
  parse_row bn ad sa af row = Some l →
  ∃ link_tag href,
    select_one (SELECTORS unit_link) row = Some link_tag ∧
    get link_tag "href" = Some href ∧
    _extract_listing_id href = Some (listing_id l) ∧
    listing_id l ≠ "".
Proof.
  unfold parse_row.
  destruct (select_one (SELECTORS unit_link) row) as [link_tag|]; [|done].
  destruct (truthy_opt (get link_tag "href")) eqn:Hhref; [|done]. simpl.
  apply truthy_opt_Some in Hhref as (href & Hget & _). rewrite Hget. simpl.
  destruct (truthy_opt (_extract_listing_id href)) eqn:Hid; [|done]. simpl.
  apply truthy_opt_Some in Hid as (id & Hext & Hne). rewrite Hext. simpl.
  intros [= <-]. simpl. by exists link_tag, href.
Qed.

Lemma parse_row_skip (bn ad sa af : string) (row link_tag : Tag) (href : string) :
  select_one (SELECTORS unit_link) row = Some link_tag →
  get link_tag "href" = Some href →
  _extract_listing_id href = None →
  parse_row bn ad sa af row = None.
Proof.
  intros Hlink Hget Hext. unfold parse_row. rewrite Hlink, Hget. simpl.
  destruct (truthy href); [|done]. simpl. by rewrite Hext.
Qed.

Lemma _parse_listings_elem (soup : Tag) (l : Listing) :
  l ∈ _parse_listings soup →
  ∃ card row,
    card ∈ select (SELECTORS listing_item) soup ∧
    row ∈ select (SELECTORS unit_rows) card ∧
    parse_row (_text card (SELECTORS k_building_name)) (_text card (SELECTORS k_address))
              (_text card (SELECTORS k_station_access)) (_text card (SELECTORS k_age_floors))
              row = Some l.
Proof.
  unfold _parse_listings. rewrite elem_of_flat_map.
  intros (card & Hcard & Hl). unfold parse_card in Hl.
  apply list_elem_of_omap in Hl as (row & Hrow & Hparse). eauto.
Qed.


End parse_lemmas.

Section fetch_lemmas.
Context `{lib : PyLib} (self : SuumoScraper) (net : Network).

Lemma _fetch_page_ok (url text : string) (trace : list event) :
  net trace url = Ok text →
  _fetch_page net url trace = (Some text, trace ++ [Get url]).
Proof. intros Hnet. unfold _fetch_page, bind, session_get. by rewrite Hnet. Qed.



Lemma fetch_loop_done (fuel : nat) (acc : list Listing) (url : option string)
    (page_num : Z) (trace : list event) :
  truthy_opt url = false ∨ (max_pages self < page_num)%Z →
  fetch_loop self net fuel acc url page_num trace = (Some acc, trace).
Proof.
  intros Hstop.
  assert (truthy_opt url && (page_num <=? max_pages self)%Z = false) as Hcond.
  { destruct Hstop as [->|Hlt]; [done|]. apply andb_false_iff. right. lia. }
  destruct fuel; simpl; by rewrite Hcond.
Qed.

Lemma fetch_loop_abort (fuel : nat) (acc : list Listing) (url : string)
    (page_num : Z) (trace : list event) :
  url ≠ "" → (page_num ≤ max_pages self)%Z →
  truthy_opt (_fetch_page net url trace).1 = false →
  fetch_loop self net (S fuel) acc (Some url) page_num trace =
    (Some acc, (_fetch_page net url trace).2).
Proof.
  intros Hurl Hpage Hfail. simpl.
  apply truthy_true in Hurl. rewrite Hurl.
  replace (page_num <=? max_pages self)%Z with true by lia. simpl.
  unfold bind at 1. destruct (_fetch_page net url trace) as [html trace'].
  simpl in Hfail. by rewrite Hfail.
Qed.

Lemma fetch_loop_step (fuel : nat) (acc : list Listing) (url text : string)
    (page_num : Z) (trace : list event) :
  url ≠ "" → (page_num ≤ max_pages self)%Z →
  net trace url = Ok text → text ≠ "" →
  fetch_loop self net (S fuel) acc (Some url) page_num trace =
    let soup := BeautifulSoup text in
    let next := _get_next_page_url soup in
    fetch_loop self net fuel (acc ++ _parse_listings soup) next (page_num + 1)
      (trace ++ [Get url] ++
       (if truthy_opt next then [Sleep (request_delay self)] else [])).
Proof.
  intros Hurl Hpage Hnet Htext. simpl.
  apply truthy_true in Hurl. rewrite Hurl.
  replace (page_num <=? max_pages self)%Z with true by lia. simpl.
  unfold bind at 1. rewrite (_fetch_page_ok _ _ _ Hnet). simpl.
  apply truthy_true in Htext. rewrite Htext. simpl.
  unfold bind. destruct (truthy_opt (_get_next_page_url (BeautifulSoup text))).
  - unfold sleep. by rewrite <- app_assoc.
  - reflexivity.
Qed.

(** The loop ends: with [max_pages - page_num + 1] iterations of fuel it
    returns a list. *)
Lemma fetch_loop_total (fuel : nat) : ∀ acc url page_num trace,
  (max_pages self - page_num < Z.of_nat fuel)%Z →
  is_Some (fetch_loop self net fuel acc url page_num trace).1.
Proof.
  induction fuel as [|fuel IH]; intros acc url page_num trace Hfuel.
  - rewrite fetch_loop_done; [by eexists|]. right. lia.
  - simpl. destruct (truthy_opt url && (page_num <=? max_pages self)%Z); [|by eexists].
    unfold bind at 1. destruct (_fetch_page _ _ _) as [html trace'].
    destruct (truthy_opt html); simpl; [|by eexists].
    unfold bind. destruct (if truthy_opt _ then _ else _) as [[] trace''].
    apply IH. lia.
Qed.

Lemma fetch_all_listings_total (search_url : string) (trace : list event) :
  is_Some (fetch_all_listings self net search_url trace).1.
Proof. unfold fetch_all_listings. apply fetch_loop_total. lia. Qed.


(** A failure on the first page returns the empty list; a failure on the
    second page returns the listings of the first. *)
Lemma fetch_all_listings_first_page_fails (search_url : string) :
  search_url ≠ "" →
  (_fetch_page net search_url []).1 = None →
  fetch_all_listings self net search_url [] =
    (Some [], if (1 <=? max_pages self)%Z then (_fetch_page net search_url []).2 else []).
Proof.
  intros Hurl Hfail. unfold fetch_all_listings.
  destruct (1 <=? max_pages self)%Z eqn:Hmax.
  - destruct (Z.to_nat (max_pages self)) as [|fuel] eqn:Hfuel; [lia|].
    apply fetch_loop_abort; [done|lia|]. by rewrite Hfail.
  - apply fetch_loop_done. right. lia.
Qed.

End fetch_lemmas.

(** * The scraper with its exceptions, and the scraper without *)

Lemma for_each_returns {A B} (body : A → outcome (list B)) (g : A → list B)
    (xs : list A) : ∀ ys,
  (∀ x items, x ∈ xs → body x = Return items → items = g x) →
  for_each body xs = Return ys → ys = flat_map g xs.
Proof.
  induction xs as [|x xs IH]; intros ys Hbody; simpl.
  { by intros [= <-]. }
  destruct (body x) as [items|msg] eqn:Hx; [|discriminate]. simpl.
  destruct (for_each body xs) as [more|msg] eqn:Hxs; [|discriminate]. simpl.
  intros [= <-]. rewrite (Hbody x items) by (done || by left).
  f_equal. apply IH; [|done]. intros y its Hy. apply Hbody. by right.
Qed.

Lemma for_each_no_raise {A B} (body : A → outcome (list B)) (g : A → list B)
    (xs : list A) :
  (∀ x, x ∈ xs → body x = Return (g x)) →
  for_each body xs = Return (flat_map g xs).
Proof.
  induction xs as [|x xs IH]; intros Hbody; [done|]. simpl.
  rewrite Hbody by (by left). simpl.
  rewrite IH by (intros y Hy; apply Hbody; by right). done.
Qed.


Lemma omap_flat_map {A B} (f : A → option B) (xs : list A) :
  omap f xs = flat_map (λ x, option_list (f x)) xs.
Proof.
  induction xs as [|x xs IH]; [done|].
  change (omap f (x :: xs)) with (match f x with Some y => y :: omap f xs | None => omap f xs end).
  simpl. rewrite IH. by destruct (f x).
Qed.

Lemma _fetch_page_trace (net : Network) (url : string) (trace : list event) :
  ∃ added, (_fetch_page net url trace).2 = trace ++ added ∧
           (length (filter (λ e, is_get e = true) added) ≤ 2)%nat ∧
           Forall (λ e, e = Get url ∨ e = Sleep (inject_Z 60)) added.
Proof.
  unfold _fetch_page, bind, session_get, sleep, ret.
  destruct (net trace url) as [text|sc|].
  - exists [Get url]. split; [done|]. split; [simpl; lia|]. repeat constructor.
  - case_decide.
    + exists [Get url; Sleep (inject_Z 60); Get url].
      split; [|split; [simpl; lia|]].
      * rewrite <- !app_assoc. by destruct (net _ url).
      * constructor; [by left|]. constructor; [by right|]. constructor; [by left|done].
    + exists [Get url]. split; [done|]. split; [simpl; lia|]. repeat constructor.
  - exists [Get url]. split; [done|]. split; [simpl; lia|]. repeat constructor.
Qed.

Section raising_lemmas.
Context `{lib : PyLib} `{err : PyRaises}.

Lemma urljoin_returns (base url joined : string) :
  Raising.urljoin base url = Return joined → joined = urljoin base url.
Proof.
  unfold Raising.urljoin. destruct (urljoin_error base url); [done|]. by intros [= <-].
Qed.

Lemma _extract_listing_id_returns (href : string) (o : option string) :
  Raising._extract_listing_id href = Return o → o = _extract_listing_id href.
Proof.
  unfold Raising._extract_listing_id, _extract_listing_id.
  destruct (re_search_jnc href); [by intros [= <-]|].
  destruct (urlparse_error href); [done|].
  destruct (fst <$> parse_qs_query href !! "bc"); by intros [= <-].
Qed.

(** Without a match of the listing-id pattern, the id comes from
    [urlparse], which may raise. *)
Lemma _extract_listing_id_raises (href msg : string) :
  Raising._extract_listing_id href = Raise msg ↔
  re_search_jnc href = None ∧ urlparse_error href = Some msg.
Proof.
  unfold Raising._extract_listing_id.
  destruct (re_search_jnc href); [by split; [|intros [? _]]|].
  destruct (urlparse_error href) as [msg'|].
  - split; [by intros [= ->]|by intros [_ [= ->]]].
  - destruct (fst <$> parse_qs_query href !! "bc"); by split; [|intros [_ ?]].
Qed.

Lemma parse_row_returns (bn ad sa af : string) (row : Tag) (o : option Listing) :
  Raising.parse_row bn ad sa af row = Return o → o = parse_row bn ad sa af row.
Proof.
  unfold Raising.parse_row, parse_row.
  destruct (select_one (SELECTORS unit_link) row) as [link_tag|]; [|by intros [= <-]].
  destruct (negb (truthy_opt (get link_tag "href"))); [by intros [= <-]|].
  destruct (Raising._extract_listing_id (default "" (get link_tag "href")))
    as [listing_id|msg] eqn:Hid; [|done]. simpl.
  apply _extract_listing_id_returns in Hid as ->.
  destruct (negb (truthy_opt (_extract_listing_id _))); [by intros [= <-]|].
  destruct (Raising.urljoin BASE_URL (default "" (get link_tag "href")))
    as [joined|msg] eqn:Hjoin; [|done]. simpl.
  apply urljoin_returns in Hjoin as ->. by intros [= <-].
Qed.

Lemma parse_card_returns (card : Tag) (ls : list Listing) :
  Raising.parse_card card = Return ls → ls = parse_card card.
Proof.
  unfold Raising.parse_card, parse_card. intros Hret. rewrite omap_flat_map.
  eapply for_each_returns; [|exact Hret]. intros row items _. cbv beta.
  destruct (Raising.parse_row _ _ _ _ row) as [o|msg] eqn:Hrow; [|done]. simpl.
  apply parse_row_returns in Hrow as ->. by intros [= <-].
Qed.

Lemma _parse_listings_returns (soup : Tag) (ls : list Listing) :
  Raising._parse_listings soup = Return ls → ls = _parse_listings soup.
Proof.
  unfold Raising._parse_listings, _parse_listings. intros Hret.
  eapply for_each_returns; [|exact Hret]. intros card items _. apply parse_card_returns.
Qed.

Lemma _get_next_page_url_returns (soup : Tag) (o : option string) :
  Raising._get_next_page_url soup = Return o → o = _get_next_page_url soup.
Proof.
  unfold Raising._get_next_page_url, _get_next_page_url.
  destruct (list_find _ _) as [[i a]|]; [|by intros [= <-]].
  destruct (Raising.urljoin BASE_URL (default "" (get a "href")))
    as [joined|msg] eqn:Hjoin; [|done]. simpl.
  apply urljoin_returns in Hjoin as ->. by intros [= <-].
Qed.








Section no_raise.
Context (Hnever : never_raises err).

Lemma urljoin_no_raise (base url : string) :
  Raising.urljoin base url = Return (urljoin base url).
Proof. unfold Raising.urljoin. by rewrite (proj2 Hnever). Qed.

Lemma _extract_listing_id_no_raise (href : string) :
  Raising._extract_listing_id href = Return (_extract_listing_id href).
Proof.
  unfold Raising._extract_listing_id, _extract_listing_id.
  destruct (re_search_jnc href); [done|]. rewrite (proj1 Hnever).
  by destruct (fst <$> parse_qs_query href !! "bc").
Qed.

Lemma parse_row_no_raise (bn ad sa af : string) (row : Tag) :
  Raising.parse_row bn ad sa af row = Return (parse_row bn ad sa af row).
Proof.
  unfold Raising.parse_row, parse_row.
  destruct (select_one (SELECTORS unit_link) row) as [link_tag|]; [|done].
  destruct (negb (truthy_opt (get link_tag "href"))); [done|].
  rewrite _extract_listing_id_no_raise. simpl.
  destruct (negb (truthy_opt (_extract_listing_id _))); [done|].
  by rewrite urljoin_no_raise.
Qed.

Lemma _parse_listings_no_raise (soup : Tag) :
  Raising._parse_listings soup = Return (_parse_listings soup).
Proof.
  unfold Raising._parse_listings, _parse_listings.
  apply for_each_no_raise. intros card _.
  unfold Raising.parse_card, parse_card. rewrite omap_flat_map.
  apply for_each_no_raise. intros row _. by rewrite parse_row_no_raise.
Qed.

Lemma _get_next_page_url_no_raise (soup : Tag) :
  Raising._get_next_page_url soup = Return (_get_next_page_url soup).
Proof.
  unfold Raising._get_next_page_url, _get_next_page_url.
  destruct (list_find _ _) as [[i a]|]; [|done]. by rewrite urljoin_no_raise.
Qed.
End no_raise.

Context (self : SuumoScraper) (net : Network).

Lemma sleep_returns (seconds : Q) (trace trace' : list event) :
  Raising.sleep seconds trace = (Return tt, trace') → sleep seconds trace = (tt, trace').
Proof.
  unfold Raising.sleep, sleep. destruct (Qle_bool 0 seconds); [|done]. by intros [= <-].
Qed.

(** When the loop with exceptions returns, the loop without them gives the
    same result and the same trace. *)
Lemma fetch_loop_returns (fuel : nat) : ∀ acc url page_num trace r trace',
  Raising.fetch_loop self net fuel acc url page_num trace = (Return r, trace') →
  fetch_loop self net fuel acc url page_num trace = (r, trace').
Proof.
  induction fuel as [|fuel IH]; intros acc url page_num trace r trace'; simpl.
  { destruct (truthy_opt url && _); unfold exc_ret, ret; by intros [= <- <-]. }
  destruct (truthy_opt url && _); [|unfold exc_ret, ret; by intros [= <- <-]].
  unfold exc_bind at 1, lift, bind at 1.
  destruct (_fetch_page net (default "" url) trace) as [html trace1].
  destruct (negb (truthy_opt html)); [unfold exc_ret, ret; by intros [= <- <-]|].
  unfold exc_bind at 1, raising.
  destruct (Raising._parse_listings (BeautifulSoup (default "" html)))
    as [page_listings|msg] eqn:Hparse; [|done].
  apply _parse_listings_returns in Hparse as ->.
  unfold exc_bind at 1.
  destruct (Raising._get_next_page_url (BeautifulSoup (default "" html)))
    as [next|msg] eqn:Hnext; [|done].
  apply _get_next_page_url_returns in Hnext as ->.
  unfold exc_bind, bind.
  destruct (truthy_opt (_get_next_page_url (BeautifulSoup (default "" html)))).
  - destruct (Raising.sleep (request_delay self) trace1) as [[[]|msg] trace2] eqn:Hsleep;
      [|done].
    apply sleep_returns in Hsleep as ->. apply IH.
  - unfold exc_ret, ret. apply IH.
Qed.

(** Conversely, when no library call raises and the delay is not negative,
    the loop with exceptions returns what the loop without them gives. *)
Lemma fetch_loop_no_raise (fuel : nat) : ∀ acc url page_num trace,
  never_raises err → Qle_bool 0 (request_delay self) = true →
  Raising.fetch_loop self net fuel acc url page_num trace =
    (Return (fetch_loop self net fuel acc url page_num trace).1,
     (fetch_loop self net fuel acc url page_num trace).2).
Proof.
  intros acc url page_num trace Hnever Hdelay. revert acc url page_num trace.
  induction fuel as [|fuel IH]; intros acc url page_num trace; simpl.
  { by destruct (truthy_opt url && _). }
  destruct (truthy_opt url && _); [|done].
  unfold exc_bind at 1, lift, bind at 1 3.
  destruct (_fetch_page net (default "" url) trace) as [html trace1].
  destruct (negb (truthy_opt html)); [done|].
  unfold exc_bind at 1, raising. rewrite (_parse_listings_no_raise Hnever).
  unfold exc_bind at 1. rewrite (_get_next_page_url_no_raise Hnever).
  unfold exc_bind, bind.
  destruct (truthy_opt (_get_next_page_url (BeautifulSoup (default "" html)))).
  - unfold Raising.sleep, sleep. rewrite Hdelay. apply IH.
  - unfold exc_ret, ret. apply IH.
Qed.

(** Returning or raising, the loop only adds to the trace, at most two
    GETs per iteration. *)
Lemma fetch_loop_raising_gets (fuel : nat) : ∀ acc url page_num trace,
  ∃ added,
    (Raising.fetch_loop self net fuel acc url page_num trace).2 = trace ++ added ∧
    (length (filter (λ e, is_get e = true) added) ≤ 2 * fuel)%nat.
Proof.
  induction fuel as [|fuel IH]; intros acc url page_num trace.
  - exists []. split; [|simpl; lia]. rewrite app_nil_r. simpl.
    by destruct (truthy_opt url && _).
  - simpl. destruct (truthy_opt url && _).
    2:{ exists []. split; [by rewrite app_nil_r|simpl; lia]. }
    unfold exc_bind at 1, lift.
    destruct (_fetch_page_trace net (default "" url) trace) as (a1 & Htr1 & Hg1 & _).
    destruct (_fetch_page net (default "" url) trace) as [html trace1]. simpl in Htr1.
    subst trace1. destruct (negb (truthy_opt html)).
    { exists a1. split; [done|lia]. }
    unfold exc_bind at 1, raising.
    destruct (Raising._parse_listings (BeautifulSoup (default "" html)))
      as [page_listings|msg]; [|exists a1; split; [done|lia]].
    unfold exc_bind at 1.
    destruct (Raising._get_next_page_url (BeautifulSoup (default "" html)))
      as [next|msg]; [|exists a1; split; [done|lia]].
    unfold exc_bind. destruct (truthy_opt next).
    + unfold Raising.sleep. destruct (Qle_bool 0 (request_delay self)).
      * destruct (IH (acc ++ page_listings) next (page_num + 1)%Z
                     ((trace ++ a1) ++ [Sleep (request_delay self)]))
          as (a2 & Htr2 & Hg2).
        exists (a1 ++ [Sleep (request_delay self)] ++ a2).
        split; [by rewrite Htr2, <- !app_assoc|].
        rewrite !filter_app, !length_app. simpl. lia.
      * exists a1. split; [done|lia].
    + unfold exc_ret.
      destruct (IH (acc ++ page_listings) next (page_num + 1)%Z (trace ++ a1))
        as (a2 & Htr2 & Hg2).
      exists (a1 ++ a2). split; [by rewrite Htr2, <- !app_assoc|].
      rewrite !filter_app, !length_app. lia.
Qed.

Lemma fetch_loop_raising_done (fuel : nat) (acc : list Listing) (url : option string)
    (page_num : Z) (trace : list event) :
  url = Some "" ∨ (max_pages self < page_num)%Z →
  Raising.fetch_loop self net fuel acc url page_num trace = (Return (Some acc), trace).
Proof.
  intros Hstop.
  assert (truthy_opt url && (page_num <=? max_pages self)%Z = false) as Hcond.
  { destruct Hstop as [->|Hlt]; [done|].
    replace (page_num <=? max_pages self)%Z with false by lia.
    by rewrite andb_false_r. }
  destruct fuel; simpl; by rewrite Hcond.
Qed.
End raising_lemmas.

(** ** Claims about the scraper *)

(** C2: with [max_pages = 2], a non-empty start URL and a site on which every
    GET succeeds with a non-empty document that reports a next-page link,
    [fetch_all_listings] performs exactly two GETs and returns the listings
    of the two pages in page order; the inter-page delay is slept twice, the
    second time after the final page. *)
Theorem C2_two_pages_two_sleeps `{lib : PyLib}
    (self : SuumoScraper) (net : Network) (search_url : string) :
  max_pages self = 2 →
  search_url ≠ "" →
  (∀ trace url, ∃ text,
     net trace url = Ok text ∧ text ≠ "" ∧
     truthy_opt (_get_next_page_url (BeautifulSoup text)) = true) →
  ∃ text1 text2 url2,
    net [] search_url = Ok text1 ∧
    _get_next_page_url (BeautifulSoup text1) = Some url2 ∧
    net [Get search_url; Sleep (request_delay self)] url2 = Ok text2 ∧
    fetch_all_listings self net search_url [] =
      (Some (_parse_listings (BeautifulSoup text1) ++ _parse_listings (BeautifulSoup text2)),
       [Get search_url; Sleep (request_delay self);
        Get url2; Sleep (request_delay self)]).
Proof.
  intros Hmax Hurl Hsite.
  destruct (Hsite [] search_url) as (text1 & Hnet1 & Htext1 & Hnext1).
  pose proof Hnext1 as Hnext1'.
  apply truthy_opt_Some in Hnext1' as (url2 & Hurl2 & Hne2).
  destruct (Hsite [Get search_url; Sleep (request_delay self)] url2)
    as (text2 & Hnet2 & Htext2 & Hnext2).
  exists text1, text2, url2. do 3 (split; [done|]).
  unfold fetch_all_listings. rewrite Hmax. change (Z.to_nat 2) with 2%nat.
  rewrite (fetch_loop_step self net 1 [] search_url text1 1 []) by (done || lia).
  cbv zeta. rewrite Hnext1. rewrite Hurl2. simpl app.
  rewrite (fetch_loop_step self net 0 _ url2 text2 (1 + 1) _) by (done || lia).
  cbv zeta. rewrite Hnext2. simpl app.
  rewrite fetch_loop_done by (right; lia).
  reflexivity.
Qed.

Lemma C2_witness :
  max_pages sample_scraper = 2 ∧
  fst (@fetch_all_listings sample_lib sample_scraper endless_site
         "https://suumo.jp/jj/chintai/?page=1" []) =
    Some (@_parse_listings sample_lib one_card_page ++
          @_parse_listings sample_lib one_card_page) ∧
  snd (@fetch_all_listings sample_lib sample_scraper endless_site
         "https://suumo.jp/jj/chintai/?page=1" []) =
    [Get "https://suumo.jp/jj/chintai/?page=1"; Sleep 3;
     Get "https://suumo.jp/jj/chintai/?page=2"; Sleep 3].
Proof.
  split; [reflexivity|].
  destruct (@C2_two_pages_two_sleeps sample_lib sample_scraper endless_site
              "https://suumo.jp/jj/chintai/?page=1")
    as (text1 & text2 & url2 & Hnet1 & Hnext1 & Hnet2 & Hrun).
  - reflexivity.
  - discriminate.
  - intros trace url. exists one_card_html.
    split; [reflexivity|]. split; [vm_compute; discriminate|]. vm_compute. reflexivity.
  - injection Hnet1 as <-. injection Hnet2 as <-.
    vm_compute in Hnext1. injection Hnext1 as <-.
    rewrite Hrun. split; reflexivity.
Defined.




(** A document with zero listing cards whose next link has an href that
    [urljoin] rejects: the next-page link is neither none nor a URL,
    [_get_next_page_url] raises. *)
Example next_link_raises :
  select (SELECTORS listing_item) bad_next_page = [] ∧
  @Raising._get_next_page_url sample_lib sample_raises bad_next_page
    = Raise "Invalid IPv6 URL".
Proof. split; vm_compute; reflexivity. Qed.



(** On the flaky site the first page arrives after one 429 and the second
    GET fails: the run returns the listings of the first page. *)
Example flaky_site_run :
  @fetch_all_listings sample_lib sample_scraper flaky_site
    "https://suumo.jp/jj/chintai/?page=1" [] =
  (Some (@_parse_listings sample_lib one_card_page),
   [Get "https://suumo.jp/jj/chintai/?page=1"; Sleep (inject_Z 60);
    Get "https://suumo.jp/jj/chintai/?page=1"; Sleep 3;
    Get "https://suumo.jp/jj/chintai/?page=2"]).
Proof. vm_compute. reflexivity. Qed.

(** The page with two building cards: three listings, one floor found, and
    the next-page link resolved against [BASE_URL]. *)
Example two_card_page_parse :
  (listing_id <$> @_parse_listings sample_lib two_card_page,
   unit_floor <$> @_parse_listings sample_lib two_card_page,
   @_get_next_page_url sample_lib two_card_page) =
  (["jnc_1"; "jnc_2"; "jnc_3"], ["3階"; ""; ""],
   Some "https://suumo.jp/jj/chintai/?page=2").
Proof. vm_compute. reflexivity. Qed.




(** * Further properties of the store *)

Section store_extra_lemmas.
Implicit Types (db : Database) (l : Listing) (ls : list Listing)
  (row : ListingRow) (rows : list ListingRow).

(** The keys of the kept candidates that have a floor are pairwise
    distinct and differ from the keys seen before. *)
Lemma keep_first_occurrence_keys ls : ∀ E : list Listing,
  NoDup (_physical_key <$> filter (λ l, unit_floor l ≠ "") (keep_first_occurrence E ls)) ∧
  ∀ k, k ∈ _physical_key <$> filter (λ l, unit_floor l ≠ "") (keep_first_occurrence E ls) →
       k ∉ _physical_key <$> filter (λ l, unit_floor l ≠ "") E.
Proof.
  induction ls as [|l ls IH]; intros E; simpl.
  { split; [apply NoDup_nil_2|]. intros k Hk. by apply elem_of_nil in Hk. }
  destruct (IH (E ++ [l])) as [Hnd Hfresh].
  assert (∀ k, k ∈ _physical_key <$>
                 filter (λ l, unit_floor l ≠ "") (keep_first_occurrence (E ++ [l]) ls) →
               k ∉ _physical_key <$> filter (λ l, unit_floor l ≠ "") E) as Hfresh'.
  { intros k Hk Hin. apply (Hfresh k Hk). rewrite filter_app, fmap_app, elem_of_app.
    by left. }
  case_decide as H3; [|done].
  rewrite filter_cons. case_decide as Hfl; [|done].
  rewrite fmap_cons. split.
  - apply NoDup_cons. split; [|done]. intros Hin. apply (Hfresh _ Hin).
    rewrite filter_app, fmap_app, elem_of_app. right.
    rewrite filter_cons_True by done. simpl. by left.
  - intros k Hk. apply elem_of_cons in Hk as [->|Hk]; [|by apply Hfresh'].
    intros Hin. apply list_elem_of_fmap in Hin as (e & Hkey & He).
    apply list_elem_of_filter in He as [Hfe He].
    specialize (H3 Hfl). rewrite Forall_forall in H3. by apply (H3 e He Hfe).
Qed.

(** A list whose keys are already distinct and new is kept whole. *)
Lemma keep_first_occurrence_id ls : ∀ E : list Listing,
  NoDup (_physical_key <$> filter (λ l, unit_floor l ≠ "") ls) →
  (∀ k, k ∈ _physical_key <$> filter (λ l, unit_floor l ≠ "") ls →
        k ∉ _physical_key <$> filter (λ l, unit_floor l ≠ "") E) →
  keep_first_occurrence E ls = ls.
Proof.
  induction ls as [|l ls IH]; intros E Hnd Hfresh; [done|]. simpl.
  rewrite filter_cons in Hnd, Hfresh.
  destruct (decide (unit_floor l ≠ "")) as [Hfl|Hfl].
  - rewrite fmap_cons in Hnd, Hfresh. apply NoDup_cons in Hnd as [Hnotin Hnd].
    rewrite decide_True.
    2:{ intros _. apply Forall_forall. intros e He Hfe Hkey.
        apply (Hfresh (_physical_key l)); [by left|].
        rewrite <- Hkey. apply list_elem_of_fmap_2. by apply list_elem_of_filter. }
    f_equal. apply IH; [done|].
    intros k Hk. rewrite filter_app, fmap_app, elem_of_app.
    intros [Hin|Hin].
    + apply (Hfresh k); [by right|done].
    + rewrite filter_cons_True in Hin by done. simpl in Hin.
      apply list_elem_of_singleton in Hin as ->. by apply Hnotin.
  - rewrite decide_True by (intros Hne; by destruct Hfl).
    f_equal. apply IH; [done|].
    intros k Hk. rewrite filter_app, fmap_app, elem_of_app.
    intros [Hin|Hin]; [by apply (Hfresh k)|].
    rewrite filter_cons_False in Hin by done. by apply elem_of_nil in Hin.
Qed.

Lemma filter_all {A} (P : A → Prop) `{!∀ x, Decision (P x)} (xs : list A) :
  (∀ x, x ∈ xs → P x) → filter P xs = xs.
Proof.
  induction xs as [|x xs IH]; intros Hall; [done|].
  rewrite filter_cons_True by (apply Hall; by left).
  f_equal. apply IH. intros y Hy. apply Hall. by right.
Qed.

(** *** UPDATE ... SET notified_at *)

Lemma update_notified_at_ids now (ids : list string) db :
  col_listing_id <$> listings (update_notified_at now ids db).2 =
  col_listing_id <$> listings db.
Proof.
  unfold update_notified_at. simpl. rewrite <- list_fmap_compose.
  apply list_fmap_ext. intros i r _. simpl. by case_decide.
Qed.

Lemma mark_notified_ids now (ids : list string) db :
  col_listing_id <$> listings (mark_notified now ids db).2 =
  col_listing_id <$> listings db.
Proof. destruct ids; [done|]. apply update_notified_at_ids. Qed.

Lemma mark_notified_run_log now (ids : list string) db :
  run_log (mark_notified now ids db).2 = run_log db.
Proof. by destruct ids. Qed.

(** *** The rows a save adds *)

Lemma executemany_new_rows rows : ∀ db,
  ∃ added, listings (executemany rows db).2 = listings db ++ added ∧
           ∀ r, r ∈ added → r ∈ rows.
Proof.
  induction rows as [|row rows IH]; intros db.
  { exists []. split; [by rewrite app_nil_r|]. intros r Hr. by apply elem_of_nil in Hr. }
  simpl. unfold bind. destruct (insert_or_ignore row db) as [[] db1] eqn:Hins.
  destruct (IH db1) as (added & Hadd & Hsub).
  unfold insert_or_ignore in Hins. case_decide; inversion Hins; subst.
  - exists added. split; [done|]. intros r Hr. right. by apply Hsub.
  - exists (row :: added). simpl in Hadd. rewrite <- app_assoc in Hadd.
    split; [done|]. intros r Hr. apply elem_of_cons in Hr as [->|Hr]; [by left|].
    right. by apply Hsub.
Qed.

(** The first row of each new id is the one that is stored. *)
Lemma executemany_first_inserted rows : ∀ db row,
  row ∈ rows → col_listing_id row ∉ col_listing_id <$> listings db →
  ∃ row0, row0 ∈ rows ∧ col_listing_id row0 = col_listing_id row ∧
          row0 ∈ listings (executemany rows db).2.
Proof.
  induction rows as [|r1 rows IH]; intros db row Hrow Hnew.
  { by apply elem_of_nil in Hrow. }
  simpl. unfold bind. destruct (insert_or_ignore r1 db) as [[] db1] eqn:Hins.
  assert (db1 = (insert_or_ignore r1 db).2) as Hdb1 by (by rewrite Hins).
  destruct (executemany_prefix rows db1) as [Hpre _].
  destruct (decide (col_listing_id r1 = col_listing_id row)) as [Heq|Hne].
  - exists r1. split; [by left|]. split; [done|].
    eapply elem_of_prefix; [|exact Hpre].
    unfold insert_or_ignore in Hins. rewrite decide_False in Hins by (by rewrite Heq).
    inversion Hins. simpl. rewrite elem_of_app, list_elem_of_singleton. by right.
  - apply elem_of_cons in Hrow as [->|Hrow]; [done|].
    destruct (IH db1 row Hrow) as (row0 & Hin & Hid & Hstored).
    { rewrite Hdb1, insert_or_ignore_ids. intros [?|?]; [done|]. by apply Hne. }
    exists row0. split; [by right|done].
Qed.

Lemma NoDup_fmap_same {A B} (f : A → B) (xs : list A) (x y : A) :
  NoDup (f <$> xs) → x ∈ xs → y ∈ xs → f x = f y → x = y.
Proof.
  induction xs as [|z xs IH]; intros Hnd Hx Hy Heq.
  { by apply elem_of_nil in Hx. }
  rewrite fmap_cons in Hnd. apply NoDup_cons in Hnd as [Hnotin Hnd].
  apply elem_of_cons in Hx as [->|Hx]; apply elem_of_cons in Hy as [->|Hy].
  - done.
  - exfalso. apply Hnotin. rewrite Heq. by apply list_elem_of_fmap_2.
  - exfalso. apply Hnotin. rewrite <- Heq. by apply list_elem_of_fmap_2.
  - by apply IH.
Qed.

(** *** DELETE keeps the primary key *)

Lemma NoDup_fmap_filter {A B} (f : A → B) (P : A → Prop) `{!∀ x, Decision (P x)}
    (xs : list A) :
  NoDup (f <$> xs) → NoDup (f <$> filter P xs).
Proof.
  induction xs as [|x xs IH]; intros Hnd; [done|].
  rewrite fmap_cons in Hnd. apply NoDup_cons in Hnd as [Hnotin Hnd].
  rewrite filter_cons. case_decide; [|by apply IH].
  rewrite fmap_cons. apply NoDup_cons. split; [|by apply IH].
  intros Hin. apply Hnotin. apply list_elem_of_fmap in Hin as (y & Hy & Hin).
  apply list_elem_of_filter in Hin as [_ Hin]. rewrite Hy. by apply list_elem_of_fmap_2.
Qed.

Lemma delete_expired_listings_rows (ids : list string) db :
  ids ≠ [] →
  listings (delete_expired_listings ids db).2 =
  filter (λ r, col_listing_id r ∈ ids) (listings db).
Proof.
  intros Hne. destruct ids as [|i ids]; [done|].
  unfold delete_expired_listings, _conn, delete_listing_id_not_in. simpl.
  apply delete_kept_rows.
Qed.
End store_extra_lemmas.


(** X1: [mark_notified] keeps the rows, their order and their ids; a row
    whose id is listed gets [notified_at = now] and no other column changes;
    the other rows and the run log are untouched, so unknown ids and the empty
    list change nothing. *)
Theorem X1_mark_notified_exact (db : Database) (now : string) (listing_ids : list string) :
  let db' := (mark_notified now listing_ids db).2 in
  col_listing_id <$> listings db' = col_listing_id <$> listings db ∧
  col_first_seen_at <$> listings db' = col_first_seen_at <$> listings db ∧
  col_physical_key <$> listings db' = col_physical_key <$> listings db ∧
  (∀ r, r ∈ listings db' → col_listing_id r ∈ listing_ids → col_notified_at r = Some now) ∧
  (∀ r, r ∈ listings db → col_listing_id r ∉ listing_ids → r ∈ listings db') ∧
  ((∀ r, r ∈ listings db → col_listing_id r ∉ listing_ids) → db' = db) ∧
  run_log db' = run_log db.
Proof.
  intros db'. unfold db'. destruct listing_ids as [|i ids].
  { simpl. do 3 (split; [done|]). split.
    - intros r _ Hin. by apply elem_of_nil in Hin.
    - done. }
  unfold mark_notified, _conn, update_notified_at. simpl.
  split; [|split; [|split; [|split; [|split; [|split]]]]].
  - rewrite <- list_fmap_compose. apply list_fmap_ext. intros ? r _. simpl. by case_decide.
  - rewrite <- list_fmap_compose. apply list_fmap_ext. intros ? r _. simpl. by case_decide.
  - rewrite <- list_fmap_compose. apply list_fmap_ext. intros ? r _. simpl. by case_decide.
  - intros r Hr Hid. apply list_elem_of_fmap in Hr as (r0 & -> & _).
    case_decide as Hin; [done|]. by destruct Hin.
  - intros r Hr Hid. apply list_elem_of_fmap. exists r. split; [|done].
    by rewrite decide_False.
  - intros Hnone. destruct db as [rows log seq]. simpl in *. f_equal.
    rewrite <- (list_fmap_id rows) at 2. apply list_fmap_ext.
    intros ? r Hr. simpl. rewrite decide_False; [done|].
    apply Hnone. apply list_elem_of_lookup. eauto.
  - done.
Qed.

(** X2: a save only appends: the rows stored before stay first and
    unchanged, every added row is the row of a listing of the batch with
    [first_seen_at = now], no notification date and the listing's physical
    key, and a batch listing with a new id is stored when no other listing of
    the batch has its id. *)
Theorem X2_save_listings_appends (db : Database) (now : string) (ls : list Listing) :
  let db' := (save_listings now ls db).2 in
  (∃ added,
     listings db' = listings db ++ added ∧
     ∀ r, r ∈ added →
       ∃ l, l ∈ ls ∧ r = row_of_listing now l ∧ col_first_seen_at r = now ∧
            col_notified_at r = None ∧ col_physical_key r = _physical_key l) ∧
  (NoDup (listing_id <$> ls) →
   ∀ l, l ∈ ls → listing_id l ∉ col_listing_id <$> listings db →
        row_of_listing now l ∈ listings db') ∧
  run_log db' = run_log db.
Proof.
  intros db'. unfold db'. destruct ls as [|l0 ls0].
  { simpl. split; [|split; [|done]].
    - exists []. split; [by rewrite app_nil_r|]. intros r Hr. by apply elem_of_nil in Hr.
    - intros _ l Hl. by apply elem_of_nil in Hl. }
  remember (l0 :: ls0) as ls eqn:Hls.
  assert (save_listings now ls = executemany (row_of_listing now <$> ls)) as ->
    by (by rewrite Hls).
  clear Hls. split; [|split].
  - destruct (executemany_new_rows (row_of_listing now <$> ls) db) as (added & Hadd & Hsub).
    exists added. split; [done|]. intros r Hr.
    apply Hsub, list_elem_of_fmap in Hr as (l & -> & Hl). by exists l.
  - intros Hnd l Hl Hnew.
    destruct (executemany_first_inserted (row_of_listing now <$> ls) db
                (row_of_listing now l)) as (row0 & Hin & Hid & Hstored).
    { by apply list_elem_of_fmap_2. }
    { done. }
    apply list_elem_of_fmap in Hin as (l' & -> & Hl').
    simpl in Hid. by rewrite <- (NoDup_fmap_same listing_id ls l' l Hnd Hl' Hl Hid).
  - apply executemany_prefix.
Qed.

(** X3: the uniqueness of [listing_id] in the listings table is kept by
    every method of the store. *)
Theorem X3_primary_key_invariant (db : Database) (now : string)
    (ls : list Listing) (ids : list string) (found new : Z) (err : option string) :
  primary_key_ok db →
  primary_key_ok (filter_new_listings ls db).2 ∧
  primary_key_ok (delete_expired_listings ids db).2 ∧
  primary_key_ok (save_listings now ls db).2 ∧
  primary_key_ok (mark_notified now ids db).2 ∧
  primary_key_ok (log_run now found new err db).2.
Proof.
  intros Hpk. split; [|split; [|split; [|split]]].
  - by rewrite filter_new_listings_state.
  - destruct ids as [|i ids]; [done|].
    unfold primary_key_ok. rewrite delete_expired_listings_rows by done.
    by apply NoDup_fmap_filter.
  - by apply save_listings_primary_key.
  - unfold primary_key_ok. by rewrite mark_notified_ids.
  - done.
Qed.

Lemma X3_witness : primary_key_ok (save_listings "t" [sample_listing "jnc_3" "A" "2F"] sample_db).2.
Proof.
  assert (primary_key_ok sample_db) as Hpk.
  { unfold primary_key_ok. apply (bool_decide_unpack _). vm_compute. exact I. }
  exact (proj1 (proj2 (proj2
    (X3_primary_key_invariant sample_db "t" [sample_listing "jnc_3" "A" "2F"] [] 0 0 None Hpk)))).
Defined.

(** X4: deleting expired listings twice with the same ids is the same as
    once: the second call deletes nothing and returns 0, and after a call
    with a non-empty list every stored id is in the list. *)
Theorem X4_delete_expired_idempotent (db : Database) (ids : list string) :
  let db' := (delete_expired_listings ids db).2 in
  delete_expired_listings ids db' = (0, db') ∧
  (ids ≠ [] → ∀ r, r ∈ listings db' → col_listing_id r ∈ ids).
Proof.
  intros db'. unfold db'. destruct ids as [|i ids]; [done|]. split.
  - unfold delete_expired_listings, _conn, delete_listing_id_not_in. simpl.
    rewrite !delete_kept_rows.
    rewrite (filter_none (λ r, col_listing_id r ∉ i :: ids)).
    2:{ intros r Hr Hnot. apply list_elem_of_filter in Hr as [? _]. by apply Hnot. }
    rewrite filter_all.
    2:{ intros r Hr. by apply list_elem_of_filter in Hr as [? _]. }
    done.
  - intros _ r Hr. rewrite delete_expired_listings_rows in Hr by done.
    by apply list_elem_of_filter in Hr as [? _].
Qed.

(** X5: [filter_new_listings] never returns a listing whose id is stored,
    nor one with a floor whose physical key is stored, nor two listings with
    a floor that share a physical key. *)
Theorem X5_filter_new_listings_output (db : Database) (candidates : list Listing) :
  let new_listings := (filter_new_listings candidates db).1 in
  (∀ l, l ∈ new_listings → listing_id l ∉ col_listing_id <$> listings db) ∧
  (∀ l, l ∈ new_listings → unit_floor l ≠ "" →
        _physical_key l ∉ col_physical_key <$> listings db) ∧
  NoDup (_physical_key <$> filter (λ l, unit_floor l ≠ "") new_listings).
Proof.
  intros Y. unfold Y. rewrite filter_new_listings_refines. split; [|split].
  - intros l Hl. by apply (filterNew_survivors_rule1 db candidates).
  - intros l Hl. apply rules_key_not_stored.
    + by apply (filterNew_survivors_rule1 db candidates).
    + by apply (filterNew_survivors_rule2 db candidates).
  - apply keep_first_occurrence_keys.
Qed.

(** X6: on an unchanged store, filtering the result of a filtering again
    returns it whole. *)
Theorem X6_filter_new_listings_idempotent (db : Database) (candidates : list Listing) :
  (filter_new_listings (filter_new_listings candidates db).1 db).1 =
  (filter_new_listings candidates db).1.
Proof.
  rewrite !filter_new_listings_refines.
  set (Y := filterNew_survivors db candidates).
  unfold filterNew_survivors at 1.
  rewrite (filter_all (rule1 db)) by (intros l Hl; by apply (filterNew_survivors_rule1 db candidates)).
  rewrite (filter_all (rule2 db)) by (intros l Hl; by apply (filterNew_survivors_rule2 db candidates)).
  apply keep_first_occurrence_id.
  - apply keep_first_occurrence_keys.
  - intros k _ Hin. rewrite filter_nil in Hin. by apply elem_of_nil in Hin.
Qed.





(** * Further properties of the scraper *)

Section scraper_extra_lemmas.
Context `{lib : PyLib} (self : SuumoScraper) (net : Network).

(** Each iteration of the loop adds at most two GETs. *)
Lemma fetch_loop_gets (fuel : nat) : ∀ acc url page_num trace,
  ∃ added, (fetch_loop self net fuel acc url page_num trace).2 = trace ++ added ∧
           (length (filter (λ e, is_get e = true) added) ≤ 2 * fuel)%nat.
Proof.
  induction fuel as [|fuel IH]; intros acc url page_num trace.
  - exists []. split; [|simpl; lia]. rewrite app_nil_r. simpl.
    by destruct (truthy_opt url && _).
  - simpl. destruct (truthy_opt url && _).
    2:{ exists []. split; [by rewrite app_nil_r|simpl; lia]. }
    unfold bind at 1.
    destruct (_fetch_page_trace net (default "" url) trace) as (a1 & Htr1 & Hg1 & _).
    destruct (_fetch_page net (default "" url) trace) as [html trace1]. simpl in Htr1.
    subst trace1. destruct (truthy_opt html); simpl.
    2:{ exists a1. split; [done|lia]. }
    unfold bind.
    destruct (truthy_opt (_get_next_page_url (BeautifulSoup (default "" html)))).
    + unfold sleep.
      destruct (IH (acc ++ _parse_listings (BeautifulSoup (default "" html)))
                   (_get_next_page_url (BeautifulSoup (default "" html)))
                   (page_num + 1)%Z ((trace ++ a1) ++ [Sleep (request_delay self)]))
        as (a2 & Htr2 & Hg2).
      exists (a1 ++ [Sleep (request_delay self)] ++ a2).
      split; [by rewrite Htr2, <- !app_assoc|].
      rewrite !filter_app, !length_app. simpl. lia.
    + unfold ret.
      destruct (IH (acc ++ _parse_listings (BeautifulSoup (default "" html)))
                   (_get_next_page_url (BeautifulSoup (default "" html)))
                   (page_num + 1)%Z (trace ++ a1))
        as (a2 & Htr2 & Hg2).
      exists (a1 ++ a2). split; [by rewrite Htr2, <- !app_assoc|].
      rewrite !filter_app, !length_app. lia.
Qed.

Lemma omap_length_le {A B} (f : A → option B) (xs : list A) :
  (length (omap f xs) ≤ length xs)%nat.
Proof.
  induction xs as [|x xs IH]; [done|]. unfold omap in IH. simpl.
  destruct (f x); simpl; lia.
Qed.

Lemma _parse_listings_length (soup : Tag) :
  (length (_parse_listings soup) ≤
   length (flat_map (select (SELECTORS unit_rows)) (select (SELECTORS listing_item) soup)))%nat.
Proof.
  unfold _parse_listings.
  induction (select (SELECTORS listing_item) soup) as [|card cards IH]; [done|].
  change (length (parse_card card ++ flat_map parse_card cards) ≤
          length (select (SELECTORS unit_rows) card ++
                  flat_map (select (SELECTORS unit_rows)) cards))%nat.
  rewrite !length_app.
  assert (length (parse_card card) ≤ length (select (SELECTORS unit_rows) card))%nat
    by apply omap_length_le.
  lia.
Qed.

Lemma parse_row_fields (bn ad sa af : string) (row : Tag) (l : Listing) :
  parse_row bn ad sa af row = Some l →
  building_name l = bn ∧ address l = ad ∧ station_access l = sa ∧ age_floors l = af ∧
  rent l = _text row (SELECTORS unit_rent) ∧
  layout l = _text row (SELECTORS unit_layout) ∧
  area l = _text row (SELECTORS unit_area) ∧
  unit_floor l = default "" (re_search_floor (get_text " " row)) ∧
  ∃ link_tag href, select_one (SELECTORS unit_link) row = Some link_tag ∧
                   get link_tag "href" = Some href ∧ href ≠ "" ∧
                   url l = urljoin BASE_URL href.
Proof.
  unfold parse_row.
  destruct (select_one (SELECTORS unit_link) row) as [link_tag|]; [|done].
  destruct (truthy_opt (get link_tag "href")) eqn:Hhref; [|done]. simpl.
  apply truthy_opt_Some in Hhref as (href & Hget & Hne). rewrite Hget. simpl.
  destruct (truthy_opt (_extract_listing_id href)); [|done]. simpl.
  intros [= <-]. simpl. do 8 (split; [done|]). by exists link_tag, href.
Qed.
End scraper_extra_lemmas.

(** X9: whether it returns or raises, [fetch_all_listings] only adds to
    the trace and issues at most two GETs per allowed page; with an empty
    start URL or [max_pages] below 1 it touches nothing and returns the empty
    list; and when it returns, it returns a list: the loop never runs out of
    iterations, and the result and the trace are those of the scraper taken
    without its exceptions. *)
Theorem X9_fetch_all_listings_bounded `{lib : PyLib} `{err : PyRaises}
    (self : SuumoScraper) (net : Network) (search_url : string) (trace : list event) :
  (∃ added,
     (Raising.fetch_all_listings self net search_url trace).2 = trace ++ added ∧
     (length (filter (λ e, is_get e = true) added) ≤ 2 * Z.to_nat (max_pages self))%nat) ∧
  (search_url = "" ∨ (max_pages self < 1)%Z →
   Raising.fetch_all_listings self net search_url trace = (Return (Some []), trace)) ∧
  (∀ r trace',
     Raising.fetch_all_listings self net search_url trace = (Return r, trace') →
     is_Some r ∧ fetch_all_listings self net search_url trace = (r, trace')).
Proof.
  split; [apply fetch_loop_raising_gets|]. split.
  - intros Hstop. apply fetch_loop_raising_done.
    destruct Hstop as [->|?]; [by left|by right].
  - intros r trace' Hret. apply fetch_loop_returns in Hret.
    split; [|done].
    pose proof (fetch_all_listings_total self net search_url trace) as Htotal.
    unfold fetch_all_listings in Htotal. by rewrite Hret in Htotal.
Qed.



(** X11: a response that succeeds with an empty body is handled like a
    failed fetch: the loop stops there and returns what it had accumulated. *)
Theorem X11_empty_body_stops `{lib : PyLib} (self : SuumoScraper) (net : Network)
    (fuel : nat) (all_listings : list Listing) (url : string) (page_num : Z)
    (trace : list event) :
  url ≠ "" → (page_num ≤ max_pages self)%Z →
  net trace url = Ok "" →
  fetch_loop self net (S fuel) all_listings (Some url) page_num trace =
    (Some all_listings, trace ++ [Get url]).
Proof.
  intros Hurl Hpage Hnet.
  rewrite fetch_loop_abort; [|done..|].
  - by rewrite (_fetch_page_ok net url "" trace Hnet).
  - by rewrite (_fetch_page_ok net url "" trace Hnet).
Qed.

Lemma X11_witness :
  @fetch_loop sample_lib sample_scraper (λ _ _, Ok "") 1 [] (Some "https://suumo.jp/x") 1 [] =
  (Some [], [Get "https://suumo.jp/x"]).
Proof.
  apply (@X11_empty_body_stops sample_lib sample_scraper (λ _ _, Ok "") 0 []
           "https://suumo.jp/x" 1 []).
  - discriminate.
  - vm_compute. discriminate.
  - reflexivity.
Defined.

(** X12: every listing of a page comes from one unit row of one card: its
    building name, address, station access and age come from the card (so the
    units of a card share them), its rent, layout and area from the row, its
    floor is the floor pattern found in the row text or empty, and its url is
    the row's non-empty href joined to [BASE_URL]; a page never yields more
    listings than it has unit rows. *)
Theorem X12_listing_fields `{lib : PyLib} (soup : Tag) :
  (∀ l, l ∈ _parse_listings soup →
     ∃ card row link_tag href,
       card ∈ select (SELECTORS listing_item) soup ∧
       row ∈ select (SELECTORS unit_rows) card ∧
       building_name l = _text card (SELECTORS k_building_name) ∧
       address l = _text card (SELECTORS k_address) ∧
       station_access l = _text card (SELECTORS k_station_access) ∧
       age_floors l = _text card (SELECTORS k_age_floors) ∧
       rent l = _text row (SELECTORS unit_rent) ∧
       layout l = _text row (SELECTORS unit_layout) ∧
       area l = _text row (SELECTORS unit_area) ∧
       unit_floor l = default "" (re_search_floor (get_text " " row)) ∧
       select_one (SELECTORS unit_link) row = Some link_tag ∧
       get link_tag "href" = Some href ∧ href ≠ "" ∧
       url l = urljoin BASE_URL href) ∧
  (length (_parse_listings soup) ≤
   length (flat_map (select (SELECTORS unit_rows)) (select (SELECTORS listing_item) soup)))%nat.
Proof.
  split; [|apply _parse_listings_length].
  intros l Hl. apply _parse_listings_elem in Hl as (card & row & Hcard & Hrow & Hparse).
  apply parse_row_fields in Hparse
    as (? & ? & ? & ? & ? & ? & ? & ? & link_tag & href & ? & ? & ? & ?).
  by exists card, row, link_tag, href.
Qed.

(** X13: the next-page URL, when there is one, is the href of the first
    pagination link that is labelled next and has a non-empty href, joined to
    [BASE_URL]; links before it are not such links. *)
Theorem X13_next_page_is_first_next_link `{lib : PyLib} (soup : Tag) (next : string) :
  _get_next_page_url soup = Some next →
  ∃ i a href,
    select (SELECTORS next_page) soup !! i = Some a ∧
    (contains "次へ" (get_text "" a) = true ∨ get_text "" a = ">") ∧
    get a "href" = Some href ∧ href ≠ "" ∧
    next = urljoin BASE_URL href ∧
    ∀ j b, (j < i)%nat → select (SELECTORS next_page) soup !! j = Some b →
           is_next_link b = false.
Proof.
  unfold _get_next_page_url.
  destruct (list_find _ _) as [[i a]|] eqn:Hfind; [|done]. intros [= <-].
  apply list_find_Some in Hfind as (Hi & Ha & Hbefore).
  unfold is_next_link in Ha. apply andb_true_iff in Ha as [Hlabel Hhref].
  apply truthy_opt_Some in Hhref as (href & Hget & Hne).
  exists i, a, href. split; [done|]. split.
  { apply orb_true_iff in Hlabel as [?|Heq]; [by left|right].
    by apply bool_decide_eq_true in Heq. }
  split; [done|]. split; [done|]. split; [by rewrite Hget|].
  intros j b Hj Hb. specialize (Hbefore j b Hb Hj). simpl in Hbefore.
  by destruct (is_next_link b).
Qed.

Lemma X13_witness :
  @_get_next_page_url sample_lib two_card_page = Some "https://suumo.jp/jj/chintai/?page=2" ∧
  ∃ i a href,
    select (SELECTORS next_page) two_card_page !! i = Some a ∧
    (contains "次へ" (@get_text sample_lib "" a) = true ∨ @get_text sample_lib "" a = ">") ∧
    get a "href" = Some href ∧ href ≠ "" ∧
    "https://suumo.jp/jj/chintai/?page=2" = @urljoin sample_lib BASE_URL href ∧
    ∀ j b, (j < i)%nat → select (SELECTORS next_page) two_card_page !! j = Some b →
           @is_next_link sample_lib b = false.
Proof.
  assert (@_get_next_page_url sample_lib two_card_page =
            Some "https://suumo.jp/jj/chintai/?page=2") as Hnext by reflexivity.
  split; [exact Hnext|].
  exact (@X13_next_page_is_first_next_link sample_lib two_card_page _ Hnext).
Defined.



(** * Properties of the notifier *)

Lemma string_app_cons (x : ascii) (a b : string) :
  String x a +:+ b = String x (a +:+ b).
Proof. reflexivity. Qed.

Lemma string_app_assoc (a b c : string) : (a +:+ b) +:+ c = a +:+ b +:+ c.
Proof. induction a as [|x a IH]; [done|]. by rewrite !string_app_cons, IH. Qed.

Lemma string_app_nil_r (a : string) : a +:+ "" = a.
Proof. induction a as [|x a IH]; [done|]. by rewrite string_app_cons, IH. Qed.

Lemma code_points_app (a b : string) :
  code_points (a +:+ b) = (code_points a + code_points b)%nat.
Proof.
  induction a as [|x a IH]; [done|]. rewrite string_app_cons. simpl.
  destruct (is_continuation x); simpl; by rewrite IH.
Qed.

Lemma py_len_app (a b : string) : py_len (a +:+ b) = (py_len a + py_len b)%Z.
Proof. unfold py_len. rewrite code_points_app. lia. Qed.

Lemma code_points_take (s : string) : ∀ n,
  code_points (take_code_points n s) = (n `min` code_points s)%nat.
Proof.
  induction s as [|c s IH]; intros n; simpl; [lia|].
  destruct (is_continuation c) eqn:Hc; simpl.
  - by rewrite Hc, IH.
  - destruct n as [|n]; simpl; [done|]. by rewrite Hc, IH.
Qed.

Lemma take_code_points_prefix (s : string) : ∀ n,
  ∃ dropped, s = take_code_points n s +:+ dropped.
Proof.
  induction s as [|c s IH]; intros n; simpl; [by exists ""|].
  destruct (is_continuation c).
  - destruct (IH n) as (d & Hd). exists d. by rewrite string_app_cons, <- Hd.
  - destruct n as [|n]; [by exists (String c s)|].
    destruct (IH n) as (d & Hd). exists d. by rewrite string_app_cons, <- Hd.
Qed.

Lemma concat_empty_cons (x : string) (xs : list string) :
  String.concat "" (x :: xs) = x +:+ String.concat "" xs.
Proof. destruct xs; simpl; [by rewrite string_app_nil_r|done]. Qed.

Lemma concat_empty_app (xs ys : list string) :
  String.concat "" (xs ++ ys) = String.concat "" xs +:+ String.concat "" ys.
Proof.
  induction xs as [|x xs IH]; [done|].
  rewrite <- app_comm_cons, !concat_empty_cons, IH. by rewrite string_app_assoc.
Qed.

Lemma clip_short (message : string) :
  (py_len message ≤ LINE_MAX_MSG_LEN)%Z → LineNotifier.clip message = message.
Proof.
  intros Hlen. unfold LineNotifier.clip.
  destruct (LINE_MAX_MSG_LEN <? py_len message)%Z eqn:Hlt; [|done].
  apply Z.ltb_lt in Hlt. lia.
Qed.

Lemma clip_long (message : string) :
  (LINE_MAX_MSG_LEN < py_len message)%Z →
  py_len (LineNotifier.clip message) = LINE_MAX_MSG_LEN ∧
  ∃ kept dropped, message = kept +:+ dropped ∧
                  LineNotifier.clip message = kept +:+ "...".
Proof.
  intros Hlen. unfold LineNotifier.clip.
  apply Z.ltb_lt in Hlen as Hlt. rewrite Hlt. split.
  - rewrite py_len_app. unfold py_len, py_prefix in *. rewrite code_points_take.
    change (code_points "...") with 3%nat. unfold LINE_MAX_MSG_LEN in *. lia.
  - destruct (take_code_points_prefix message (Z.to_nat (LINE_MAX_MSG_LEN - 3)))
      as (dropped & Hd).
    by exists (py_prefix (LINE_MAX_MSG_LEN - 3) message), dropped.
Qed.

Lemma send_attempts (carrier : Carrier) (self : LineNotifier.t) (message : string)
    (sent : list notice) :
  (LineNotifier.send carrier self message sent).2 =
  sent ++ [LinePush (LineNotifier.channel_access_token self) (LineNotifier.user_id self)
             (LineNotifier.clip message)].
Proof.
  unfold LineNotifier.send, attempt. by destruct (carrier sent _).
Qed.

Lemma send_returns (carrier : Carrier) (self : LineNotifier.t) (message : string)
    (sent : list notice) :
  never_crashes carrier →
  ∃ b, (LineNotifier.send carrier self message sent).1 = Return b.
Proof.
  intros Hnc. unfold LineNotifier.send, attempt.
  destruct (carrier sent _) eqn:Hc; [by exists true|by exists false|].
  by apply Hnc in Hc.
Qed.

Section chunking.
Context (carrier : Carrier) (self : LineNotifier.t).

(** The invariant of the loop of [send_new_listings]: what was pushed,
    followed by the chunk in hand, is the text built so far, and nothing
    pushed or in hand exceeds the limit. *)
Lemma chunk_loop_invariant (listings : list Listing) :
  ∀ (current_chunk : string) (success : bool) (sent : list notice)
    (current_chunk' : string) (success' : bool) (sent' : list notice),
  (py_len current_chunk ≤ LINE_MAX_MSG_LEN)%Z →
  (∀ l, l ∈ listings → (py_len (url l +:+ nl) ≤ LINE_MAX_MSG_LEN)%Z) →
  LineNotifier.chunk_loop carrier self listings current_chunk success sent
    = (Return (current_chunk', success'), sent') →
  ∃ chunks,
    sent' = sent ++ pushes_of self chunks ∧
    Forall (λ c, (py_len c ≤ LINE_MAX_MSG_LEN)%Z) chunks ∧
    (py_len current_chunk' ≤ LINE_MAX_MSG_LEN)%Z ∧
    String.concat "" chunks +:+ current_chunk' =
      current_chunk +:+ String.concat "" ((λ l, url l +:+ nl) <$> listings).
Proof.
  induction listings as [|l rest IH];
    intros cur ok sent cur' ok' sent' Hcur Hentries Hrun.
  - simpl in Hrun. unfold exc_ret in Hrun. injection Hrun as <- <- <-.
    exists []. rewrite app_nil_r. split; [done|]. split; [constructor|].
    split; [done|]. simpl. by rewrite string_app_nil_r.
  - simpl in Hrun.
    assert (py_len (url l +:+ nl) ≤ LINE_MAX_MSG_LEN)%Z as Hentry
      by (apply Hentries; by left).
    assert (∀ l', l' ∈ rest → (py_len (url l' +:+ nl) ≤ LINE_MAX_MSG_LEN)%Z) as Hrest
      by (intros l' Hl'; apply Hentries; by right).
    rewrite fmap_cons, concat_empty_cons.
    destruct (LINE_MAX_MSG_LEN <? py_len cur + py_len (url l +:+ nl))%Z eqn:Hover.
    + unfold exc_bind in Hrun.
      pose proof (send_attempts carrier self cur sent) as Hsent.
      destruct (LineNotifier.send carrier self cur sent) as [[b|msg] sent1];
        [|discriminate].
      simpl in Hsent. subst sent1. rewrite (clip_short _ Hcur) in Hrun.
      destruct (IH _ _ _ _ _ _ Hentry Hrest Hrun) as (chunks & -> & Hall & Hcur' & Heq).
      exists (cur :: chunks). split; [by rewrite <- app_assoc|].
      split; [by constructor|]. split; [done|].
      by rewrite concat_empty_cons, string_app_assoc, Heq.
    + apply Z.ltb_ge in Hover.
      assert (py_len (cur +:+ url l +:+ nl) ≤ LINE_MAX_MSG_LEN)%Z as Hcur2
        by (by rewrite py_len_app).
      destruct (IH _ _ _ _ _ _ Hcur2 Hrest Hrun) as (chunks & -> & Hall & Hcur' & Heq).
      exists chunks. split; [done|]. split; [done|]. split; [done|].
      by rewrite Heq, string_app_assoc.
Qed.

(** The loop only pushes to LINE, returns when the carrier never crashes,
    and, when it pushes nothing, ends with the whole text in hand. *)
Lemma chunk_loop_pushes (listings : list Listing) :
  ∀ (current_chunk : string) (success : bool) (sent : list notice),
  ∃ texts,
    (LineNotifier.chunk_loop carrier self listings current_chunk success sent).2
      = sent ++ pushes_of self texts ∧
    (never_crashes carrier →
     ∃ state,
       (LineNotifier.chunk_loop carrier self listings current_chunk success sent).1
         = Return state) ∧
    (texts = [] →
     (LineNotifier.chunk_loop carrier self listings current_chunk success sent).1
       = Return (current_chunk +:+ String.concat "" ((λ l, url l +:+ nl) <$> listings),
                 success)).
Proof.
  induction listings as [|l rest IH]; intros cur ok sent.
  - exists []. simpl. rewrite app_nil_r, string_app_nil_r. split; [done|].
    split; [|done]. intros _. by eexists.
  - rewrite fmap_cons, concat_empty_cons. cbn [LineNotifier.chunk_loop]. cbv zeta.
    destruct (LINE_MAX_MSG_LEN <? py_len cur + py_len (url l +:+ nl))%Z.
    + unfold exc_bind.
      pose proof (send_attempts carrier self cur sent) as Hsent.
      pose proof (send_returns carrier self cur sent) as Hret.
      destruct (LineNotifier.send carrier self cur sent) as [[b|msg] sent1];
        simpl in Hsent; subst sent1.
      * destruct (IH (url l +:+ nl) (ok && b) (sent ++ [LinePush
                       (LineNotifier.channel_access_token self)
                       (LineNotifier.user_id self) (LineNotifier.clip cur)]))
          as (texts & Htr & Hok & _).
        exists (LineNotifier.clip cur :: texts).
        split; [by rewrite Htr, <- app_assoc|]. split; [done|done].
      * exists [LineNotifier.clip cur]. split; [done|]. split; [|done].
        intros Hnc. destruct (Hret Hnc) as (b & Hb). discriminate.
    + destruct (IH (cur +:+ url l +:+ nl) ok sent) as (texts & Htr & Hok & Hsilent).
      exists texts. split; [done|]. split; [done|].
      intros Hnil. rewrite (Hsilent Hnil). by rewrite string_app_assoc.
Qed.
End chunking.

(** [LineNotifier.send_new_listings] only pushes to LINE, returns when the
    carrier never crashes, and pushes nothing only when the whole text is
    blank for [strip]. *)
Lemma line_send_new_listings_pushes `{lib : PyLib} (carrier : Carrier)
    (self : LineNotifier.t) (listings : list Listing) (sent : list notice) :
  ∃ texts,
    (LineNotifier.send_new_listings carrier self listings sent).2
      = sent ++ pushes_of self texts ∧
    (never_crashes carrier →
     ∃ b, (LineNotifier.send_new_listings carrier self listings sent).1 = Return b) ∧
    (listings ≠ [] → never_crashes carrier → texts = [] →
     truthy (strip (LineNotifier.header listings
                    +:+ String.concat "" ((λ l, url l +:+ nl) <$> listings))) = false).
Proof.
  unfold LineNotifier.send_new_listings. destruct listings as [|l0 ls0].
  { exists []. simpl. rewrite app_nil_r. split; [done|]. split; [|done].
    intros _. by exists true. }
  remember (l0 :: ls0) as listings eqn:Hls. clear Hls.
  unfold exc_bind, exc_ret.
  destruct (chunk_loop_pushes carrier self listings (LineNotifier.header listings)
              true sent) as (texts & Htr & Hok & Hsilent).
  destruct (LineNotifier.chunk_loop carrier self listings _ true sent)
    as [[[cur ok]|msg] sent1]; simpl in Htr; subst sent1.
  - destruct (truthy (strip cur)) eqn:Hstrip.
    + pose proof (send_attempts carrier self cur (sent ++ pushes_of self texts)) as Hsent.
      pose proof (send_returns carrier self cur (sent ++ pushes_of self texts)) as Hret.
      destruct (LineNotifier.send carrier self cur _) as [[b|msg] sent1];
        simpl in Hsent; subst sent1.
      * exists (texts ++ [LineNotifier.clip cur]). unfold pushes_of.
        rewrite fmap_app, app_assoc. split; [done|]. split.
        -- intros _. by exists (ok && b).
        -- intros _ _ Hnil. by destruct texts.
      * exists (texts ++ [LineNotifier.clip cur]). unfold pushes_of.
        rewrite fmap_app, app_assoc. split; [done|]. split.
        -- intros Hnc. destruct (Hret Hnc) as (b & Hb). discriminate.
        -- intros _ _ Hnil. by destruct texts.
    + exists texts. split; [done|]. split; [intros _; by exists ok|].
      intros _ _ Hnil. specialize (Hsilent Hnil). simpl in Hsilent.
      injection Hsilent as <- _. done.
  - exists texts. split; [done|]. split.
    + intros Hnc. destruct (Hok Hnc) as (st & Hst). discriminate.
    + intros _ Hnc. destruct (Hok Hnc) as (st & Hst). discriminate.
Qed.

(** X14: [LineNotifier.send] makes exactly one push, whatever the answer,
    and its text never exceeds 5000 characters: a message within the limit
    goes out unchanged, a longer one as a prefix of it followed by three
    dots, 5000 characters in all. *)
Theorem X14_line_send_clips (carrier : Carrier) (self : LineNotifier.t)
    (message : string) (sent : list notice) :
  ∃ text,
    (LineNotifier.send carrier self message sent).2 =
      sent ++ [LinePush (LineNotifier.channel_access_token self)
                 (LineNotifier.user_id self) text] ∧
    (py_len text ≤ LINE_MAX_MSG_LEN)%Z ∧
    ((py_len message ≤ LINE_MAX_MSG_LEN)%Z → text = message) ∧
    ((LINE_MAX_MSG_LEN < py_len message)%Z →
     py_len text = LINE_MAX_MSG_LEN ∧
     ∃ kept dropped, message = kept +:+ dropped ∧ text = kept +:+ "...").
Proof.
  exists (LineNotifier.clip message). split; [apply send_attempts|].
  split; [|split; [apply clip_short|apply clip_long]].
  destruct (decide (py_len message ≤ LINE_MAX_MSG_LEN)%Z) as [Hle|Hgt].
  - by rewrite clip_short.
  - destruct (clip_long message) as [-> _]; lia.
Qed.

(** X15: the chunking of [LineNotifier.send_new_listings] loses nothing.
    When the header and every URL line fit in a message and the call
    returns, the pushes are whole chunks of at most 5000 characters, none of
    them cut, and put end to end, with the part left unsent (empty, or blank
    for [strip]), they are exactly the header followed by one line per
    listing, in order. *)
Theorem X15_line_chunks_lose_nothing `{lib : PyLib} (carrier : Carrier)
    (self : LineNotifier.t) (listings : list Listing) (sent sent' : list notice)
    (success : bool) :
  listings ≠ [] →
  (py_len (LineNotifier.header listings) ≤ LINE_MAX_MSG_LEN)%Z →
  (∀ l, l ∈ listings → (py_len (url l +:+ nl) ≤ LINE_MAX_MSG_LEN)%Z) →
  LineNotifier.send_new_listings carrier self listings sent = (Return success, sent') →
  ∃ chunks unsent,
    sent' = sent ++ pushes_of self chunks ∧
    Forall (λ c, (py_len c ≤ LINE_MAX_MSG_LEN)%Z) chunks ∧
    (unsent = "" ∨ truthy (strip unsent) = false) ∧
    String.concat "" chunks +:+ unsent =
      LineNotifier.header listings +:+ String.concat "" ((λ l, url l +:+ nl) <$> listings).
Proof.
  intros Hne Hheader Hentries. unfold LineNotifier.send_new_listings.
  destruct listings as [|l0 ls0]; [done|].
  remember (l0 :: ls0) as listings eqn:Hls. clear Hls Hne.
  unfold exc_bind at 1.
  destruct (LineNotifier.chunk_loop carrier self listings _ true sent)
    as [[[cur ok]|msg] sent1] eqn:Hloop; [|discriminate].
  destruct (chunk_loop_invariant carrier self listings _ _ _ _ _ _ Hheader Hentries Hloop)
    as (chunks & -> & Hall & Hcur & Heq).
  destruct (truthy (strip cur)) eqn:Hstrip.
  - unfold exc_bind, exc_ret.
    pose proof (send_attempts carrier self cur (sent ++ pushes_of self chunks)) as Hsent.
    destruct (LineNotifier.send carrier self cur _) as [[b|msg] sent1];
      [|discriminate].
    simpl in Hsent. subst sent1. rewrite (clip_short _ Hcur). intros [= <- <-].
    exists (chunks ++ [cur]), "". unfold pushes_of. rewrite fmap_app, app_assoc.
    split; [done|]. split; [apply Forall_app; by split; [|constructor]|].
    split; [by left|].
    rewrite concat_empty_app, string_app_nil_r. simpl. by rewrite Heq.
  - unfold exc_ret. intros [= <- <-]. exists chunks, cur.
    split; [done|]. split; [done|]. split; [by right|done].
Qed.

Lemma X15_witness :
  ∃ chunks unsent,
    (LineNotifier.send_new_listings (lib := sample_lib) reliable_carrier
       (LineNotifier.mk "U123" "token")
       [sample_listing "jnc_1" "Tokyo 1-1" "3F"; sample_listing "jnc_2" "Tokyo 2-2" ""]
       []).2
      = [] ++ pushes_of (LineNotifier.mk "U123" "token") chunks ∧
    Forall (λ c, (py_len c ≤ LINE_MAX_MSG_LEN)%Z) chunks ∧
    (unsent = "" ∨ truthy (sample_strip unsent) = false) ∧
    String.concat "" chunks +:+ unsent =
      LineNotifier.header
        [sample_listing "jnc_1" "Tokyo 1-1" "3F"; sample_listing "jnc_2" "Tokyo 2-2" ""]
      +:+ String.concat ""
            ((λ l, url l +:+ nl) <$>
             [sample_listing "jnc_1" "Tokyo 1-1" "3F"; sample_listing "jnc_2" "Tokyo 2-2" ""]).
Proof.
  apply (X15_line_chunks_lose_nothing (lib := sample_lib) reliable_carrier
           (LineNotifier.mk "U123" "token") _ [] _ true).
  - discriminate.
  - vm_compute. discriminate.
  - apply Forall_forall. repeat constructor; vm_compute; discriminate.
  - vm_compute. reflexivity.
Defined.

Lemma attempt_returns (carrier : Carrier) (n : notice) (sent : list notice) :
  never_crashes carrier → ∃ b, attempt carrier n sent = (Return b, sent ++ [n]).
Proof.
  intros Hnc. unfold attempt.
  destruct (carrier sent n) eqn:Hc; [by exists true|by exists false|].
  by apply Hnc in Hc.
Qed.

Lemma attempt_trace (carrier : Carrier) (n : notice) (sent : list notice) :
  (attempt carrier n sent).2 = sent ++ [n].
Proof. unfold attempt. by destruct (carrier sent n). Qed.

Lemma pushes_of_line (self : LineNotifier.t) (texts : list string) :
  Forall (λ n, is_line_push n = true) (pushes_of self texts).
Proof. apply Forall_fmap, Forall_forall. done. Qed.

Section notify_channels.
Context `{lib : PyLib} (carrier : Carrier) (self : Notifier.t).
Context (listings : list Listing) (Hne : listings ≠ []).
Context (Hnc : never_crashes carrier).

Lemma notify_line (sent : list notice) :
  ∃ pushes,
    Notifier.when_set (Notifier.line self)
      (λ c, LineNotifier.send_new_listings carrier c listings) sent
      = (Return tt, sent ++ pushes) ∧
    Forall (λ n, is_line_push n = true) pushes ∧
    (Notifier.line self = None → pushes = []) ∧
    (is_Some (Notifier.line self) → pushes = [] →
     truthy (strip (LineNotifier.header listings
                    +:+ String.concat "" ((λ l, url l +:+ nl) <$> listings))) = false).
Proof.
  unfold Notifier.when_set. destruct (Notifier.line self) as [c|].
  - destruct (line_send_new_listings_pushes carrier c listings sent)
      as (texts & Htr & Hret & Hsilent).
    destruct (Hret Hnc) as (b & Hb). unfold exc_bind, exc_ret.
    destruct (LineNotifier.send_new_listings carrier c listings sent) as [o sent1].
    simpl in Htr, Hb. subst o sent1. exists (pushes_of c texts).
    split; [done|]. split; [apply pushes_of_line|]. split; [done|].
    intros _ Hnil. apply Hsilent; [done..|]. by apply fmap_nil_inv in Hnil.
  - exists []. rewrite app_nil_r. split; [done|]. split; [done|]. split; [done|].
    by intros [? ?].
Qed.

Lemma notify_slack (sent : list notice) :
  ∃ posts,
    Notifier.when_set (Notifier.slack self)
      (λ c, SlackNotifier.send_new_listings carrier c listings) sent
      = (Return tt, sent ++ posts) ∧
    Forall (λ n, is_slack_post n = true) posts ∧
    length posts = match Notifier.slack self with Some _ => 1%nat | None => 0%nat end.
Proof.
  unfold Notifier.when_set. destruct (Notifier.slack self) as [c|].
  - unfold SlackNotifier.send_new_listings, SlackNotifier.send.
    destruct listings as [|l0 ls0]; [done|].
    unfold exc_bind, exc_ret.
    match goal with |- context [attempt carrier ?n sent] =>
      destruct (attempt_returns carrier n sent Hnc) as (b & ->); exists [n] end.
    split; [done|]. split; [by repeat constructor|done].
  - exists []. rewrite app_nil_r. by split.
Qed.

Lemma notify_email (sent : list notice) :
  ∃ mails,
    Notifier.when_set (Notifier.email self)
      (λ c, EmailNotifier.send_new_listings carrier c listings) sent
      = (Return tt, sent ++ mails) ∧
    Forall (λ n, is_mail n = true) mails ∧
    length mails = match Notifier.email self with Some _ => 1%nat | None => 0%nat end.
Proof.
  unfold Notifier.when_set. destruct (Notifier.email self) as [c|].
  - unfold EmailNotifier.send_new_listings.
    destruct listings as [|l0 ls0]; [done|].
    unfold exc_bind, exc_ret.
    match goal with |- context [attempt carrier ?n sent] =>
      destruct (attempt_returns carrier n sent Hnc) as (b & ->); exists [n] end.
    split; [done|]. split; [by repeat constructor|done].
  - exists []. rewrite app_nil_r. by split.
Qed.
End notify_channels.

(** X16: an error notification goes to LINE and Slack only: it never
    attempts a mail, makes at most two attempts, one per configured channel
    in that order, and a notifier with mail alone attempts nothing. *)
Theorem X16_notify_error_never_mails (carrier : Carrier) (self : Notifier.t)
    (message : string) (sent : list notice) :
  ∃ added,
    (Notifier.notify_error carrier self message sent).2 = sent ++ added ∧
    Forall (λ n, is_mail n = false) added ∧
    (length added ≤ 2)%nat ∧
    (Notifier.line self = None → Notifier.slack self = None → added = []).
Proof.
  unfold Notifier.notify_error, Notifier.when_set, exc_bind, exc_ret.
  destruct (Notifier.line self) as [c|].
  - pose proof (send_attempts carrier c ("[SUUMO Monitor エラー]" +:+ nl +:+ message) sent)
      as Hsent.
    destruct (LineNotifier.send carrier c _ sent) as [[b|msg] sent1];
      simpl in Hsent; subst sent1.
    + destruct (Notifier.slack self) as [c'|].
      * unfold SlackNotifier.send.
        match goal with |- context [attempt carrier ?n ?s] =>
          pose proof (attempt_trace carrier n s) as Hpost;
          destruct (attempt carrier n s) as [[b'|msg] sent2];
          simpl in Hpost; subst sent2;
          exists [LinePush (LineNotifier.channel_access_token c) (LineNotifier.user_id c)
                    (LineNotifier.clip ("[SUUMO Monitor エラー]" +:+ nl +:+ message)); n]
        end.
        -- rewrite <- app_assoc. split; [done|]. split; [by repeat constructor|].
           split; [simpl; lia|done].
        -- rewrite <- app_assoc. split; [done|]. split; [by repeat constructor|].
           split; [simpl; lia|done].
      * eexists. split; [done|]. split; [by repeat constructor|].
        split; [simpl; lia|done].
    + eexists. split; [done|]. split; [by repeat constructor|].
      split; [simpl; lia|done].
  - destruct (Notifier.slack self) as [c'|].
    + unfold SlackNotifier.send.
      match goal with |- context [attempt carrier ?n ?s] =>
        pose proof (attempt_trace carrier n s) as Hpost;
        destruct (attempt carrier n s) as [[b'|msg] sent2];
        simpl in Hpost; subst sent2; exists [n]
      end.
      * split; [done|]. split; [by repeat constructor|]. split; [simpl; lia|done].
      * split; [done|]. split; [by repeat constructor|]. split; [simpl; lia|done].
    + exists []. rewrite app_nil_r. split; [done|]. split; [constructor|].
      split; [simpl; lia|done].
Qed.

(** X17: with a carrier whose failures are all caught by the senders,
    [Notifier.notify] on a non-empty list returns normally and reaches every
    configured channel, in the order LINE, Slack, mail: pushes to LINE (none
    without LINE, and with LINE at least one unless the whole text, header
    and URL lines, is blank for [strip]), then exactly one Slack post when
    Slack is configured, then exactly one mail when mail is configured.  A
    refusal on one channel does not stop the next. *)
Theorem X17_notify_reaches_every_channel `{lib : PyLib} (carrier : Carrier)
    (self : Notifier.t) (listings : list Listing) (sent : list notice) :
  never_crashes carrier → listings ≠ [] →
  ∃ pushes posts mails,
    Notifier.notify carrier self listings sent
      = (Return tt, sent ++ pushes ++ posts ++ mails) ∧
    Forall (λ n, is_line_push n = true) pushes ∧
    (Notifier.line self = None → pushes = []) ∧
    (is_Some (Notifier.line self) → pushes = [] →
     truthy (strip (LineNotifier.header listings
                    +:+ String.concat "" ((λ l, url l +:+ nl) <$> listings))) = false) ∧
    Forall (λ n, is_slack_post n = true) posts ∧
    length posts = match Notifier.slack self with Some _ => 1%nat | None => 0%nat end ∧
    Forall (λ n, is_mail n = true) mails ∧
    length mails = match Notifier.email self with Some _ => 1%nat | None => 0%nat end.
Proof.
  intros Hnc Hne.
  destruct (notify_line carrier self listings Hne Hnc sent)
    as (pushes & Hline & Hp & Hp0 & Hp1).
  destruct (notify_slack carrier self listings Hne Hnc (sent ++ pushes))
    as (posts & Hslack & Hs & Hs1).
  destruct (notify_email carrier self listings Hne Hnc ((sent ++ pushes) ++ posts))
    as (mails & Hemail & Hm & Hm1).
  exists pushes, posts, mails. split; [|done].
  unfold Notifier.notify. destruct listings as [|l0 ls0]; [done|].
  unfold exc_bind at 1. rewrite Hline.
  unfold exc_bind at 1. rewrite Hslack.
  rewrite Hemail. by rewrite <- !app_assoc.
Qed.

(** A carrier that refuses every Slack post and delivers the rest. *)
Lemma X17_witness :
  ∃ pushes posts mails,
    Notifier.notify (lib := sample_lib)
      (λ _ n, if is_slack_post n then Refused else Delivered)
      sample_notifier [sample_listing "jnc_1" "Tokyo 1-1" "3F"] []
      = (Return tt, [] ++ pushes ++ posts ++ mails) ∧
    Forall (λ n, is_line_push n = true) pushes ∧
    (Notifier.line sample_notifier = None → pushes = []) ∧
    (is_Some (Notifier.line sample_notifier) → pushes = [] →
     truthy (sample_strip
               (LineNotifier.header [sample_listing "jnc_1" "Tokyo 1-1" "3F"]
                +:+ String.concat ""
                      ((λ l, url l +:+ nl) <$> [sample_listing "jnc_1" "Tokyo 1-1" "3F"])))
       = false) ∧
    Forall (λ n, is_slack_post n = true) posts ∧
    length posts = 1%nat ∧
    Forall (λ n, is_mail n = true) mails ∧
    length mails = 1%nat.
Proof.
  apply (X17_notify_reaches_every_channel (lib := sample_lib)
           (λ _ n, if is_slack_post n then Refused else Delivered)
           sample_notifier [sample_listing "jnc_1" "Tokyo 1-1" "3F"] []).
  - intros sent n msg. destruct (is_slack_post n); discriminate.
  - discriminate.
Defined.

(** * Properties of the configuration and of a run *)

Lemma missing_nil (cfg : Config.t) :
  Config.missing cfg = [] ↔
  Config.smtp_username cfg ≠ "" ∧ Config.smtp_password cfg ≠ "" ∧
  Config.email_from cfg ≠ "" ∧ Config.email_to cfg ≠ [].
Proof.
  unfold Config.missing. rewrite <- !truthy_true.
  destruct (truthy (Config.smtp_username cfg)), (truthy (Config.smtp_password cfg)),
    (truthy (Config.email_from cfg)), (Config.email_to cfg); simpl; intuition congruence.
Qed.

(** X18: what [Config.validate] accepts: at least one channel is
    configured (LINE with token and user id, a Slack webhook, or mail
    enabled), a LINE token never comes without a user id, and enabled mail
    has a user name, a password, a sender and at least one recipient. *)
Theorem X18_validate_accepts (cfg : Config.t) :
  Config.validate cfg = Return tt ↔
  (truthy_opt (Config.line_channel_access_token cfg) && truthy_opt (Config.line_user_id cfg)
   || truthy_opt (Config.slack_webhook_url cfg) || Config.email_enabled cfg) = true ∧
  (truthy_opt (Config.line_channel_access_token cfg) = true →
   truthy_opt (Config.line_user_id cfg) = true) ∧
  (Config.email_enabled cfg = true →
   Config.smtp_username cfg ≠ "" ∧ Config.smtp_password cfg ≠ "" ∧
   Config.email_from cfg ≠ "" ∧ Config.email_to cfg ≠ []).
Proof.
  unfold Config.validate. rewrite <- missing_nil.
  destruct (truthy_opt (Config.line_channel_access_token cfg)),
    (truthy_opt (Config.line_user_id cfg)), (truthy_opt (Config.slack_webhook_url cfg)),
    (Config.email_enabled cfg); simpl;
    try (destruct (Config.missing cfg)); intuition congruence.
Qed.

Lemma validate_channels (cfg : Config.t) :
  Config.validate cfg = Return tt →
  (truthy_opt (Config.line_channel_access_token cfg) && truthy_opt (Config.line_user_id cfg)
   || truthy_opt (Config.slack_webhook_url cfg) || Config.email_enabled cfg) = true.
Proof.
  unfold Config.validate.
  destruct (truthy_opt (Config.line_channel_access_token cfg)
            && truthy_opt (Config.line_user_id cfg)
            || truthy_opt (Config.slack_webhook_url cfg) || Config.email_enabled cfg);
    [done|discriminate].
Qed.

Lemma build_notifier_valid (cfg : Config.t) :
  Config.validate cfg = Return tt →
  build_notifier cfg =
    Return (Notifier.mk
      (if truthy_opt (Config.line_channel_access_token cfg)
          && truthy_opt (Config.line_user_id cfg)
       then Some (LineNotifier.mk (default "" (Config.line_user_id cfg))
                    (default "" (Config.line_channel_access_token cfg)))
       else None)
      (if truthy_opt (Config.slack_webhook_url cfg)
       then Some (SlackNotifier.mk (default "" (Config.slack_webhook_url cfg)))
       else None)
      (if Config.email_enabled cfg
       then Some (EmailNotifier.mk (Config.smtp_host cfg) (Config.smtp_port cfg)
                    (Config.smtp_username cfg) (Config.smtp_password cfg)
                    (Config.email_from cfg) (Config.email_to cfg))
       else None)).
Proof.
  intros Hch%validate_channels. unfold build_notifier, LineNotifier.init, SlackNotifier.init.
  destruct (Config.line_channel_access_token cfg) as [tok|],
    (Config.line_user_id cfg) as [uid|], (Config.slack_webhook_url cfg) as [hook|],
    (Config.email_enabled cfg); simpl in *;
    repeat match goal with
           | |- context [truthy ?s] => destruct (truthy s); simpl in *
           end; done.
Qed.

(** X19: a configuration that [Config.validate] accepts always gives a
    notifier: no constructor called by [build_notifier] raises, LINE is
    built exactly when token and user id are both set, Slack exactly when
    the webhook is set, mail exactly when it is enabled, and at least one of
    the three is there. *)
Theorem X19_build_notifier_after_validate (cfg : Config.t) :
  Config.validate cfg = Return tt →
  ∃ n, build_notifier cfg = Return n ∧
       (is_Some (Notifier.line n) ↔
        truthy_opt (Config.line_channel_access_token cfg) = true ∧
        truthy_opt (Config.line_user_id cfg) = true) ∧
       (is_Some (Notifier.slack n) ↔ truthy_opt (Config.slack_webhook_url cfg) = true) ∧
       (is_Some (Notifier.email n) ↔ Config.email_enabled cfg = true) ∧
       (is_Some (Notifier.line n) ∨ is_Some (Notifier.slack n) ∨ is_Some (Notifier.email n)).
Proof.
  intros Hvalid. pose proof (validate_channels cfg Hvalid) as Hch.
  eexists. split; [by apply build_notifier_valid|]. simpl.
  destruct (truthy_opt (Config.line_channel_access_token cfg)),
    (truthy_opt (Config.line_user_id cfg)), (truthy_opt (Config.slack_webhook_url cfg)),
    (Config.email_enabled cfg); simpl in *; try discriminate;
    rewrite ?is_Some_alt; intuition congruence.
Qed.

Lemma X19_witness :
  ∃ n, build_notifier sample_config = Return n ∧
       (is_Some (Notifier.line n) ↔
        truthy_opt (Config.line_channel_access_token sample_config) = true ∧
        truthy_opt (Config.line_user_id sample_config) = true) ∧
       (is_Some (Notifier.slack n) ↔
        truthy_opt (Config.slack_webhook_url sample_config) = true) ∧
       (is_Some (Notifier.email n) ↔ Config.email_enabled sample_config = true) ∧
       (is_Some (Notifier.line n) ∨ is_Some (Notifier.slack n) ∨ is_Some (Notifier.email n)).
Proof. apply (X19_build_notifier_after_validate sample_config). reflexivity. Defined.

Section run_steps.
Context `{lib : PyLib} (net : Network) (carrier : Carrier).

End run_steps.

(** *** What the store calls of a run leave alone *)

Lemma executemany_run_log_seq rows : ∀ db,
  run_log_seq (executemany rows db).2 = run_log_seq db.
Proof.
  induction rows as [|row rows IH]; intros db; [done|].
  simpl. unfold bind, insert_or_ignore. case_decide; simpl; by rewrite IH.
Qed.

Lemma save_listings_log now ls db :
  run_log (save_listings now ls db).2 = run_log db ∧
  run_log_seq (save_listings now ls db).2 = run_log_seq db.
Proof.
  destruct ls as [|l0 ls0]; [done|]. unfold save_listings, _conn.
  split; [apply executemany_prefix|apply executemany_run_log_seq].
Qed.

Lemma mark_notified_log now (ids : list string) db :
  run_log (mark_notified now ids db).2 = run_log db ∧
  run_log_seq (mark_notified now ids db).2 = run_log_seq db.
Proof. by destruct ids. Qed.


Lemma save_listings_added now ls db :
  ∃ added, listings (save_listings now ls db).2 = listings db ++ added ∧
           ∀ r, r ∈ added → ∃ l, l ∈ ls ∧ r = row_of_listing now l.
Proof.
  destruct ls as [|l0 ls0].
  { exists []. split; [by rewrite app_nil_r|]. intros r Hr. by apply elem_of_nil in Hr. }
  unfold save_listings, _conn.
  destruct (executemany_new_rows (row_of_listing now <$> l0 :: ls0) db)
    as (added & Hadd & Hsub).
  exists added. split; [done|]. intros r Hr.
  apply Hsub, list_elem_of_fmap in Hr as (l & -> & Hl). by exists l.
Qed.




(** Of the listings of a batch that share a new id, one is stored. *)
Lemma save_listings_first_inserted now ls db l :
  l ∈ ls → listing_id l ∉ col_listing_id <$> listings db →
  ∃ l0, l0 ∈ ls ∧ listing_id l0 = listing_id l ∧
        row_of_listing now l0 ∈ listings (save_listings now ls db).2.
Proof.
  intros Hl Hnew. destruct ls as [|n0 ns0]; [by apply elem_of_nil in Hl|].
  unfold save_listings, _conn.
  destruct (executemany_first_inserted (row_of_listing now <$> n0 :: ns0) db
              (row_of_listing now l)) as (row0 & Hin & Hid & Hstored).
  { by apply list_elem_of_fmap_2. }
  { done. }
  apply list_elem_of_fmap in Hin as (l0 & -> & Hl0). by exists l0.
Qed.











(** * A run after a run *)

Lemma not_rule3 (E : list Listing) (l : Listing) :
  ¬ rule3 E l → ∃ e, e ∈ E ∧ unit_floor e ≠ "" ∧ _physical_key e = _physical_key l.
Proof.
  unfold rule3. intros Hno.
  destruct (decide (unit_floor l ≠ "")) as [Hfl|Hfl]; [|by exfalso; apply Hno].
  assert (¬ Forall (λ e, unit_floor e ≠ "" → _physical_key e ≠ _physical_key l) E)
    as Hnot by (intros Hall; by apply Hno).
  apply not_Forall_Exists in Hnot; [|apply _].
  apply Exists_exists in Hnot as (e & He & Hne). exists e. split; [done|].
  simpl in Hne. destruct (decide (unit_floor e ≠ "")) as [Hfe|Hfe].
  - split; [done|]. apply dec_stable. intros Hk. by apply Hne.
  - exfalso. by apply Hne.
Qed.

(** A candidate with a floor that rule 3 drops has its key carried by a
    candidate with a floor that is kept, or seen before. *)
Lemma keep_first_covers ls : ∀ (E : list Listing) l,
  l ∈ ls → unit_floor l ≠ "" →
  (∃ e, e ∈ E ∧ unit_floor e ≠ "" ∧ _physical_key e = _physical_key l) ∨
  (∃ l', l' ∈ keep_first_occurrence E ls ∧ unit_floor l' ≠ "" ∧
         _physical_key l' = _physical_key l).
Proof.
  induction ls as [|x ls IH]; intros E l Hl Hfl.
  { by apply elem_of_nil in Hl. }
  assert (∀ k, unit_floor x ≠ "" → _physical_key x = k →
            (∃ e, e ∈ E ∧ unit_floor e ≠ "" ∧ _physical_key e = k) ∨
            (∃ l', l' ∈ keep_first_occurrence E (x :: ls) ∧ unit_floor l' ≠ "" ∧
                   _physical_key l' = k)) as Hhead.
  { intros k Hfx Hk. simpl. case_decide as H3.
    - right. exists x. split; [by left|done].
    - left. destruct (not_rule3 _ _ H3) as (e & He & Hfe & Hke).
      exists e. split; [done|]. split; [done|]. by rewrite Hke. }
  apply elem_of_cons in Hl as [->|Hl]; [by apply Hhead|].
  destruct (IH (E ++ [x]) l Hl Hfl) as [(e & He & Hfe & Hke)|(l' & Hl' & Hfl' & Hkl')].
  - apply elem_of_app in He as [He|He].
    + left. by exists e.
    + apply list_elem_of_singleton in He as ->. by apply Hhead.
  - right. exists l'. split; [|done]. simpl. case_decide; [by right|done].
Qed.

(** Candidates that all have their id stored, or a floor and their key
    stored, give no new listing. *)
Lemma filter_new_listings_all_blocked ls db :
  (∀ l, l ∈ ls →
        listing_id l ∈ col_listing_id <$> listings db ∨
        (unit_floor l ≠ "" ∧ _physical_key l ∈ col_physical_key <$> listings db)) →
  (filter_new_listings ls db).1 = [].
Proof.
  intros Hblocked. rewrite filter_new_listings_refines. unfold filterNew_survivors.
  rewrite (filter_none (rule2 db)); [done|].
  intros l Hl H2. apply list_elem_of_filter in Hl as [H1 Hl].
  destruct (Hblocked l Hl) as [Hid|[Hfl Hkey]]; [by apply H1|].
  by apply (rules_key_not_stored db l H1 H2 Hfl).
Qed.

Lemma delete_expired_listings_keeps_all (ids : list string) db :
  (∀ r, r ∈ listings db → col_listing_id r ∈ ids) →
  listings (delete_expired_listings ids db).2 = listings db.
Proof.
  intros Hall. destruct ids as [|i ids]; [done|].
  rewrite delete_expired_listings_rows by done. by apply filter_all.
Qed.

Lemma mark_notified_keys now (ids : list string) db :
  col_physical_key <$> listings (mark_notified now ids db).2 =
  col_physical_key <$> listings db.
Proof.
  destruct ids as [|i ids]; [done|]. unfold mark_notified, _conn, update_notified_at.
  simpl. rewrite <- list_fmap_compose.
  apply list_fmap_ext. intros k r _. simpl. by case_decide.
Qed.

Section second_pass.
Context (db : Database) (now : string) (all_listings : list Listing).
Context (Hsame : ∀ a b, a ∈ all_listings → b ∈ all_listings →
                        listing_id a = listing_id b → _physical_key a = _physical_key b).

(** After the listings found new are saved, every candidate has its id
    stored, or a floor and its key stored. *)
Lemma save_covers (db1 : Database) (l : Listing) :
  l ∈ all_listings →
  listing_id l ∈ col_listing_id <$>
    listings (save_listings now (filter_new_listings all_listings db1).1 db1).2 ∨
  (unit_floor l ≠ "" ∧
   _physical_key l ∈ col_physical_key <$>
     listings (save_listings now (filter_new_listings all_listings db1).1 db1).2).
Proof.
  intros Hl.
  assert (∀ l, l ∈ (filter_new_listings all_listings db1).1 → l ∈ all_listings) as Hsub.
  { intros l0 Hl0. rewrite filter_new_listings_refines in Hl0.
    eapply elem_of_sublist; [done|apply filterNew_survivors_sublist]. }
  destruct (save_listings_added now (filter_new_listings all_listings db1).1 db1)
    as (added & Hadd & Hrows).
  destruct (decide (listing_id l ∈ col_listing_id <$> listings db1)) as [Hid|H1].
  { left. apply save_listings_ids. by left. }
  destruct (decide (unit_floor l = "")) as [Hfl|Hfl].
  { left. apply save_listings_ids. right. apply list_elem_of_fmap_2.
    rewrite filter_new_listings_refines. by apply filterNew_survivors_no_floor. }
  right. split; [done|].
  destruct (decide (_physical_key l ∈ col_physical_key <$> listings db1)) as [Hkey|Hkey].
  { rewrite Hadd, fmap_app, elem_of_app. by left. }
  assert (rule2 db1 l) as H2.
  { intros _. apply Forall_forall. intros r Hr Hk. exfalso. apply Hkey.
    rewrite <- Hk. by apply list_elem_of_fmap_2. }
  destruct (keep_first_covers (filter (rule2 db1) (filter (rule1 db1) all_listings)) [] l)
    as [(e & He & _)|(l' & Hl' & Hfl' & Hkl')]; [|done|by apply elem_of_nil in He|].
  { apply list_elem_of_filter. split; [done|]. by apply list_elem_of_filter. }
  fold (filterNew_survivors db1 all_listings) in Hl'.
  pose proof (filterNew_survivors_rule1 _ _ _ Hl') as H1'.
  rewrite <- filter_new_listings_refines in Hl'.
  destruct (save_listings_first_inserted now (filter_new_listings all_listings db1).1
              db1 l' Hl' H1') as (l'' & Hl'' & Hid & Hstored).
  apply list_elem_of_fmap. exists (row_of_listing now l''). split; [|done].
  cbn [col_physical_key row_of_listing]. rewrite <- Hkl'. symmetry.
  apply Hsame; [by apply Hsub|by apply Hsub|done].
Qed.

(** After the expired rows are deleted and the new listings saved, every
    scraped listing has its id stored, or a floor and its key stored, and
    every stored row has the id of a scraped listing. *)
Lemma saved_covers :
  let db1 := (delete_expired_listings (listing_id <$> all_listings) db).2 in
  let saved := (save_listings now (filter_new_listings all_listings db1).1 db1).2 in
  (∀ l, l ∈ all_listings →
        listing_id l ∈ col_listing_id <$> listings saved ∨
        (unit_floor l ≠ "" ∧ _physical_key l ∈ col_physical_key <$> listings saved)) ∧
  (all_listings ≠ [] →
   ∀ r, r ∈ listings saved → col_listing_id r ∈ listing_id <$> all_listings).
Proof.
  intros db1 saved.
  assert (∀ l, l ∈ (filter_new_listings all_listings db1).1 → l ∈ all_listings) as Hsub.
  { intros l Hl. rewrite filter_new_listings_refines in Hl.
    eapply elem_of_sublist; [done|apply filterNew_survivors_sublist]. }
  destruct (save_listings_added now (filter_new_listings all_listings db1).1 db1)
    as (added & Hadd & Hrows).
  fold saved in Hadd. split.
  - intros l Hl. by apply save_covers.
  - intros Hne r Hr. rewrite Hadd in Hr. apply elem_of_app in Hr as [Hr|Hr].
    + unfold db1 in Hr. rewrite delete_expired_listings_rows in Hr
        by (by destruct all_listings).
      by apply list_elem_of_filter in Hr as [? _].
    + destruct (Hrows r Hr) as (l & Hl & ->). cbn [col_listing_id row_of_listing].
      apply list_elem_of_fmap_2. by apply Hsub.
Qed.
End second_pass.

(** X26: a second pass over the same scrape finds nothing new.  When
    listings that share an id share their physical key, then after the
    expired rows are deleted and the new listings saved, marked as notified
    or not, filtering the same scrape again, once more after the deletion of
    the expired rows, returns the empty list. *)
Theorem X26_second_pass_finds_nothing (db : Database) (now now' : string)
    (all_listings : list Listing) :
  (∀ a b, a ∈ all_listings → b ∈ all_listings →
          listing_id a = listing_id b → _physical_key a = _physical_key b) →
  let current_ids := listing_id <$> all_listings in
  let db1 := (delete_expired_listings current_ids db).2 in
  let new_listings := (filter_new_listings all_listings db1).1 in
  let saved := (save_listings now new_listings db1).2 in
  let marked := (mark_notified now' (listing_id <$> new_listings) saved).2 in
  (filter_new_listings all_listings (delete_expired_listings current_ids saved).2).1 = [] ∧
  (filter_new_listings all_listings (delete_expired_listings current_ids marked).2).1 = [].
Proof.
  intros Hsame.
  destruct (decide (all_listings = [])) as [->|Hne]; [by split|].
  intros current_ids db1 new_listings saved marked.
  destruct (saved_covers db now all_listings Hsame) as [Hcov Hids].
  fold current_ids db1 new_listings saved in Hcov, Hids. specialize (Hids Hne).
  split; apply filter_new_listings_all_blocked; intros l Hl.
  - rewrite delete_expired_listings_keeps_all by done. by apply Hcov.
  - rewrite delete_expired_listings_keeps_all.
    + unfold marked. rewrite mark_notified_ids, mark_notified_keys. by apply Hcov.
    + intros r Hr. assert (col_listing_id r ∈ col_listing_id <$> listings marked) as Hin
        by (by apply list_elem_of_fmap_2).
      unfold marked in Hin. rewrite mark_notified_ids in Hin.
      apply list_elem_of_fmap in Hin as (r' & -> & Hr'). by apply Hids.
Qed.

Lemma X26_witness :
  (filter_new_listings
     [sample_listing "jnc_1" "Tokyo 1-1" "3F"; sample_listing "jnc_7" "Tokyo 7-7" "2F";
      sample_listing "jnc_8" "Tokyo 7-7" "2F"]
     (delete_expired_listings ["jnc_1"; "jnc_7"; "jnc_8"]
        (save_listings "t1" [sample_listing "jnc_7" "Tokyo 7-7" "2F"]
           (delete_expired_listings ["jnc_1"; "jnc_7"; "jnc_8"] sample_db).2).2).2).1 = [] ∧
  (filter_new_listings
     [sample_listing "jnc_1" "Tokyo 1-1" "3F"; sample_listing "jnc_7" "Tokyo 7-7" "2F";
      sample_listing "jnc_8" "Tokyo 7-7" "2F"]
     (delete_expired_listings ["jnc_1"; "jnc_7"; "jnc_8"]
        (mark_notified "t2" ["jnc_7"]
           (save_listings "t1" [sample_listing "jnc_7" "Tokyo 7-7" "2F"]
              (delete_expired_listings ["jnc_1"; "jnc_7"; "jnc_8"] sample_db).2).2).2).2).1
  = [].
Proof.
  apply (X26_second_pass_finds_nothing sample_db "t1" "t2"
           [sample_listing "jnc_1" "Tokyo 1-1" "3F"; sample_listing "jnc_7" "Tokyo 7-7" "2F";
            sample_listing "jnc_8" "Tokyo 7-7" "2F"]).
  intros a b Ha Hb Hid.
  apply list_elem_of_In in Ha, Hb. simpl in Ha, Hb.
  destruct Ha as [<-|[<-|[<-|[]]]], Hb as [<-|[<-|[<-|[]]]];
    first [reflexivity|discriminate Hid].
Defined.

(** C7 (as the code has it): once the output of [filter_new_listings] on
    [X] has been saved, that output is never found new again; and when the
    listings of [X] that share an id share their physical key, filtering [X]
    itself again returns the empty list, and so does filtering that result
    once more. *)
Theorem C7_filter_after_save_is_empty (db : Database) (X : list Listing) (now : string) :
  let Y := (filter_new_listings X db).1 in
  let db' := (save_listings now Y db).2 in
  (filter_new_listings Y db').1 = [] ∧
  ((∀ a b, a ∈ X → b ∈ X →
           listing_id a = listing_id b → _physical_key a = _physical_key b) →
   (filter_new_listings X db').1 = [] ∧
   (filter_new_listings (filter_new_listings X db').1 db').1 = []).
Proof.
  intros Y db'. split.
  - apply filter_new_listings_all_blocked. intros l Hl. left.
    apply save_listings_ids. right. by apply list_elem_of_fmap_2.
  - intros Hsame.
    assert ((filter_new_listings X db').1 = []) as Hnone.
    { apply filter_new_listings_all_blocked. intros l Hl.
      by apply (save_covers now X Hsame db). }
    by rewrite Hnone.
Qed.

Lemma C7_witness :
  (filter_new_listings
     [sample_listing "jnc_7" "Tokyo 7-7" "2F"; sample_listing "jnc_8" "Tokyo 7-7" "2F"]
     (save_listings "t"
        (filter_new_listings
           [sample_listing "jnc_7" "Tokyo 7-7" "2F"; sample_listing "jnc_8" "Tokyo 7-7" "2F"]
           sample_db).1 sample_db).2).1 = [] ∧
  (filter_new_listings
     (filter_new_listings
        [sample_listing "jnc_7" "Tokyo 7-7" "2F"; sample_listing "jnc_8" "Tokyo 7-7" "2F"]
        (save_listings "t"
           (filter_new_listings
              [sample_listing "jnc_7" "Tokyo 7-7" "2F"; sample_listing "jnc_8" "Tokyo 7-7" "2F"]
              sample_db).1 sample_db).2).1
     (save_listings "t"
        (filter_new_listings
           [sample_listing "jnc_7" "Tokyo 7-7" "2F"; sample_listing "jnc_8" "Tokyo 7-7" "2F"]
           sample_db).1 sample_db).2).1 = [].
Proof.
  apply (C7_filter_after_save_is_empty sample_db
           [sample_listing "jnc_7" "Tokyo 7-7" "2F"; sample_listing "jnc_8" "Tokyo 7-7" "2F"]
           "t").
  intros a b Ha Hb Hid.
  apply list_elem_of_In in Ha, Hb. simpl in Ha, Hb.
  destruct Ha as [<-|[<-|[]]], Hb as [<-|[<-|[]]];
    first [reflexivity|discriminate Hid].
Defined.

(** Two listings of the batch share the id [jnc_a] and differ in their
    key; the second has the key of [jnc_b].  The first filtering keeps both
    and drops [jnc_b] by rule 3; the save stores the first alone, the second
    being ignored for its id; after it, filtering the batch finds [jnc_b]
    new, its key not being stored, and filtering that result again still
    does. *)
Lemma C7_counterexample :
  (filter_new_listings
     (filter_new_listings
        [sample_listing "jnc_a" "Tokyo 1-1" "1F"; sample_listing "jnc_a" "Tokyo 2-2" "2F";
         sample_listing "jnc_b" "Tokyo 2-2" "2F"]
        (save_listings "t"
           (filter_new_listings
              [sample_listing "jnc_a" "Tokyo 1-1" "1F"; sample_listing "jnc_a" "Tokyo 2-2" "2F";
               sample_listing "jnc_b" "Tokyo 2-2" "2F"]
              empty_db).1 empty_db).2).1
     (save_listings "t"
        (filter_new_listings
           [sample_listing "jnc_a" "Tokyo 1-1" "1F"; sample_listing "jnc_a" "Tokyo 2-2" "2F";
            sample_listing "jnc_b" "Tokyo 2-2" "2F"]
           empty_db).1 empty_db).2).1
  = [sample_listing "jnc_b" "Tokyo 2-2" "2F"].
Proof. vm_compute. reflexivity. Qed.

